(** * Statue content processor: a shallow embedding and its properties

    The development follows the content-processing module of the static
    site generator (the module that imports [fs], [path], [marked] and
    [gray-matter]): heading stripping, link rewriting, the directory
    scanner, the content cache, the directory queries, template-variable
    substitution and the sidebar builder.

    Modelling conventions.
    - JavaScript strings are Rocq strings; the model covers ASCII text
      (upper-casing and whitespace are the ASCII ones).
    - JavaScript numbers are modelled at their integer values ([Z]).
    - [path] is Node's POSIX flavour.
    - A markdown file on disk is represented by what [matter] returns for
      its text: the front-matter mapping and the markdown body.
    - [marked], the site configuration and the clock are external: they
      are fields of the environment record [Env]. *)

From Stdlib Require Import ZArith Lia Sorted Ascii.
From Stdlib Require String.
From stdpp Require Import base strings list gmap pretty sorting.

Local Open Scope Z_scope.
Local Open Scope stdpp_scope.

(** ** JavaScript string primitives *)

Module JsString.

Definition eqb (a b : string) : bool := bool_decide (a = b).

(** [s.startsWith(p)] *)
Definition startsWith (s p : string) : bool := String.prefix p s.

(** Remainder of [s] after the prefix [p], when [s] starts with [p]. *)
Fixpoint strip_prefix (p s : string) : option string :=
  match p with
  | "" => Some s
  | String a p' =>
      match s with
      | "" => None
      | String b s' => if bool_decide (a = b) then strip_prefix p' s' else None
      end
  end.

(** [s.endsWith(suf)] *)
Fixpoint endsWith (s suf : string) : bool :=
  eqb s suf ||
  match s with
  | "" => false
  | String _ s' => endsWith s' suf
  end.

(** [s.slice(0, -n)] *)
Definition slice_end (s : string) (n : nat) : string :=
  String.substring 0 (String.length s - n) s.

(** [s.includes(p)] *)
Fixpoint includes (s p : string) : bool :=
  startsWith s p ||
  match s with
  | "" => false
  | String _ s' => includes s' p
  end.

(** [s.replace(pat, rep)] for a string pattern [pat] and a replacement
    without [$] patterns: the first occurrence only. *)
Fixpoint replace (pat rep s : string) : string :=
  match strip_prefix pat s with
  | Some rest => rep +:+ rest
  | None =>
      match s with
      | "" => ""
      | String c s' => String c (replace pat rep s')
      end
  end.

(** [s.replace(/c/g, d)] for single characters [c], [d]. *)
Fixpoint replace_all_char (c d : ascii) (s : string) : string :=
  match s with
  | "" => ""
  | String a s' =>
      String (if bool_decide (a = c) then d else a) (replace_all_char c d s')
  end.

(** [s.replace(/c$/, '')]: one trailing [c] is dropped. *)
Fixpoint strip_trailing (c : ascii) (s : string) : string :=
  match s with
  | "" => ""
  | String a "" => if bool_decide (a = c) then "" else s
  | String a s' => String a (strip_trailing c s')
  end.

(** [s.split(sep)] for a one-character separator. *)
Fixpoint split (sep : ascii) (s : string) : list string :=
  match s with
  | "" => [""]
  | String c s' =>
      if bool_decide (c = sep) then "" :: split sep s'
      else match split sep s' with
           | w :: ws => String c w :: ws
           | [] => [String c ""]
           end
  end.

(** [l.join(sep)] *)
Fixpoint join (sep : string) (l : list string) : string :=
  match l with
  | [] => ""
  | [w] => w
  | w :: ws => w +:+ sep +:+ join sep ws
  end.

Definition is_upper (c : ascii) : bool :=
  (65 <=? Ascii.nat_of_ascii c)%nat && (Ascii.nat_of_ascii c <=? 90)%nat.
Definition is_lower (c : ascii) : bool :=
  (97 <=? Ascii.nat_of_ascii c)%nat && (Ascii.nat_of_ascii c <=? 122)%nat.
Definition is_digit (c : ascii) : bool :=
  (48 <=? Ascii.nat_of_ascii c)%nat && (Ascii.nat_of_ascii c <=? 57)%nat.
Definition is_alpha (c : ascii) : bool := is_upper c || is_lower c.

(** [c.toUpperCase()] on one character of the model's alphabet, ASCII,
    where it maps one character to one character. Beyond ASCII the
    JavaScript mapping is another one (it may even lengthen the text), so
    what is proved of upper-cased text is proved of ASCII text. *)
Definition toUpperCase_char (c : ascii) : ascii :=
  if is_lower c then Ascii.ascii_of_nat (Ascii.nat_of_ascii c - 32) else c.

(** White space of [trim] and line terminators of the regular
    expression dot, within ASCII. *)
Definition is_space (c : ascii) : bool := Ascii.is_space c.
Definition is_line_terminator (c : ascii) : bool :=
  bool_decide (c = "010"%char) || bool_decide (c = "013"%char).

Fixpoint trimStart (s : string) : string :=
  match s with
  | "" => ""
  | String c s' => if is_space c then trimStart s' else s
  end.

Definition trim (s : string) : string :=
  String.rev (trimStart (String.rev (trimStart s))).

End JsString.

(** ** JavaScript values found in front matter and in the configuration *)

Inductive jsval :=
| JUndefined
| JNull
| JBool (b : bool)
| JNum (n : Z)
| JStr (s : string).

Global Instance jsval_eq_dec : EqDecision jsval.
Proof. solve_decision. Defined.

Module Js.

(** ToBoolean *)
Definition truthy (v : jsval) : bool :=
  match v with
  | JUndefined | JNull => false
  | JBool b => b
  | JNum n => negb (n =? 0)
  | JStr s => negb (JsString.eqb s "")
  end.

(** [a || b] *)
Definition or (a b : jsval) : jsval := if truthy a then a else b.

(** ToString *)
Definition toString (v : jsval) : string :=
  match v with
  | JUndefined => "undefined"
  | JNull => "null"
  | JBool true => "true"
  | JBool false => "false"
  | JNum n => pretty n
  | JStr s => s
  end.

(** Property read [o.k] on an object without inherited [k]. *)
Definition get (o : gmap string jsval) (k : string) : jsval :=
  default JUndefined (o !! k).

Fixpoint digits_value (acc : Z) (s : string) : option Z :=
  match s with
  | "" => Some acc
  | String c s' =>
      if JsString.is_digit c
      then digits_value (10 * acc + Z.of_nat (Ascii.nat_of_ascii c - 48)) s'
      else None
  end.

(** StringToNumber at the integer literals; [None] is [NaN]. *)
Definition stringToNumber (s : string) : option Z :=
  match JsString.trim s with
  | "" => Some 0
  | String "-" (String c r) => Z.opp <$> digits_value 0 (String c r)
  | String "+" (String c r) => digits_value 0 (String c r)
  | t => digits_value 0 t
  end.

(** ToNumber; [None] is [NaN]. *)
Definition toNumber (v : jsval) : option Z :=
  match v with
  | JUndefined => None
  | JNull => Some 0
  | JBool b => Some (if b then 1 else 0)
  | JNum n => Some n
  | JStr s => stringToNumber s
  end.

(** [a - b]; [None] is [NaN]. *)
Definition sub (a b : jsval) : option Z :=
  match toNumber a, toNumber b with
  | Some x, Some y => Some (x - y)
  | _, _ => None
  end.

End Js.

(** ** Node's [path.join] (POSIX) *)

Module Path.

Definition step (allowAboveRoot : bool) (stack : list string) (seg : string)
  : list string :=
  if JsString.eqb seg "" || JsString.eqb seg "." then stack
  else if JsString.eqb seg ".." then
    match stack with
    | top :: rest =>
        if JsString.eqb top ".."
        then (if allowAboveRoot then seg :: stack else stack)
        else rest
    | [] => if allowAboveRoot then [seg] else []
    end
  else seg :: stack.

(** The segments that survive normalisation, first segment first. *)
Definition normalizeSegments (allowAboveRoot : bool) (segs : list string)
  : list string :=
  rev (fold_left (step allowAboveRoot) segs []).

Definition normalize (p : string) : string :=
  if JsString.eqb p "" then "."
  else
    let isAbsolute := JsString.startsWith p "/" in
    let trailingSeparator := JsString.endsWith p "/" in
    let body :=
      JsString.join "/"
        (normalizeSegments (negb isAbsolute) (JsString.split "/" p)) in
    if JsString.eqb body "" then
      (if isAbsolute then "/" else if trailingSeparator then "./" else ".")
    else
      (if isAbsolute then "/" else "") +:+ body +:+
      (if trailingSeparator then "/" else "").

Definition join (args : list string) : string :=
  match List.filter (fun a => negb (JsString.eqb a "")) args with
  | [] => "."
  | parts => normalize (JsString.join "/" parts)
  end.

End Path.

(** ** Link transformer ([createLinkTransformer]) *)

Record LinkToken := {
  href : string;
  title : option string;
  text : string
}.

(** [/^[a-zA-Z][a-zA-Z0-9+.-]*:/.test(href)] *)
Fixpoint scheme_tail (s : string) : bool :=
  match s with
  | "" => false
  | String c s' =>
      if bool_decide (c = ":"%char) then true
      else if JsString.is_alpha c || JsString.is_digit c
              || bool_decide (c = "+"%char) || bool_decide (c = "."%char)
              || bool_decide (c = "-"%char)
           then scheme_tail s'
           else false
  end.

Definition hasProtocol (href : string) : bool :=
  match href with
  | "" => false
  | String c s' => JsString.is_alpha c && scheme_tail s'
  end.

(** The href computed by [renderer.link] for a file of [currentDirectory]. *)
Definition transformHref (currentDirectory href : string) : string :=
  if negb (JsString.eqb href "") && negb (hasProtocol href)
     && negb (JsString.startsWith href "#")
  then
    let href :=
      if JsString.endsWith href ".md" then JsString.slice_end href 3 else href in
    if JsString.startsWith href "./" || JsString.startsWith href "../" then
      let resolvedPath := Path.join ["/"; currentDirectory; href] in
      JsString.strip_trailing "/"
        (JsString.replace_all_char "\" "/" resolvedPath)
    else if negb (JsString.startsWith href "/") then
      JsString.replace_all_char "\" "/"
        (Path.join ["/"; currentDirectory; href])
    else href
  else href.

(** [modifiedToken = { ...token, href }] *)
Definition transformLink (currentDirectory : string) (token : LinkToken)
  : LinkToken :=
  {| href := transformHref currentDirectory (href token);
     title := title token;
     text := text token |}.

(** [createLinkTransformer(currentDirectory).link], over marked's default
    link renderer. *)
Definition createLinkTransformer (originalLinkRenderer : LinkToken -> string)
    (currentDirectory : string) : LinkToken -> string :=
  fun token => originalLinkRenderer (transformLink currentDirectory token).

Example link_dot_md : transformHref "blog" "./other.md" = "/blog/other".
Proof. vm_compute. reflexivity. Qed.
Example link_up : transformHref "blog" "../docs/setup.md" = "/docs/setup".
Proof. vm_compute. reflexivity. Qed.
Example link_bare : transformHref "blog" "other-file" = "/blog/other-file".
Proof. vm_compute. reflexivity. Qed.
Example link_http : transformHref "blog" "https://example.com" = "https://example.com".
Proof. vm_compute. reflexivity. Qed.
Example link_abs : transformHref "blog" "/already/absolute.md" = "/already/absolute".
Proof. vm_compute. reflexivity. Qed.
Example link_dir : transformHref "blog" "./" = "/blog".
Proof. vm_compute. reflexivity. Qed.
Example link_root : transformHref "" "./a/../b.md" = "/b".
Proof. vm_compute. reflexivity. Qed.

(** ** Title formatter ([formatTitle]) *)

(** [word.charAt(0).toUpperCase() + word.slice(1)] *)
Definition capitalize (word : string) : string :=
  match word with
  | "" => ""
  | String c w => String (JsString.toUpperCase_char c) w
  end.

Definition formatTitle (slug : string) : string :=
  JsString.join " " (capitalize <$> JsString.split "-" slug).

(** ** Heading stripper ([removeFirstH1]) *)

(** [[^>]*>]: up to and including the first [>]. *)
Fixpoint tag_rest (s : string) : option string :=
  match s with
  | "" => None
  | String c s' => if bool_decide (c = ">"%char) then Some s' else tag_rest s'
  end.

(** [(.*?)<\/h1>]: up to and including the first [</h1>], crossing no
    line terminator. *)
Fixpoint lazy_close (s : string) : option string :=
  match JsString.strip_prefix "</h1>" s with
  | Some rest => Some rest
  | None =>
      match s with
      | "" => None
      | String c s' =>
          if JsString.is_line_terminator c then None else lazy_close s'
      end
  end.

(** A match of [/<h1[^>]*>(.*?)<\/h1>/] at the start of [s]: what follows it. *)
Definition match_h1 (s : string) : option string :=
  s1 ← JsString.strip_prefix "<h1" s;
  s2 ← tag_rest s1;
  lazy_close s2.

(** [html.replace(/<h1[^>]*>(.*?)<\/h1>/, '')]: the leftmost match is cut. *)
Fixpoint removeFirstH1 (html : string) : string :=
  match match_h1 html with
  | Some rest => rest
  | None =>
      match html with
      | "" => ""
      | String c s => String c (removeFirstH1 s)
      end
  end.

(** ** Environment: configuration, clock, runtime mode, markdown engine *)

Record Env := {
  (** [siteConfig.a.b.c] is [siteConfig ["a"; "b"; "c"]]. *)
  siteConfig : list string -> jsval;
  (** [new Date().toLocaleDateString('en-US')] and the other three date
      strings, at substitution time. *)
  date_now : string;
  date_year : string;
  date_month : string;
  date_day : string;
  (** [process.env.NODE_ENV] and the truth of [import.meta.env.DEV]. *)
  NODE_ENV : option string;
  import_meta_env_DEV : bool;
  (** marked's default link renderer and [marked.parse(md, { renderer })],
      the latter as a function of the renderer's [link]. *)
  originalLinkRenderer : LinkToken -> string;
  marked_parse : (LinkToken -> string) -> string -> string
}.

(** ** Template-variable substitution ([processTemplateVariables]) *)

(** The flattened variable map built from the configuration and the date. *)
Definition variables (env : Env) : gmap string jsval :=
  let cfg := siteConfig env in
  list_to_map [
    ("site.name", cfg ["site"; "name"]);
    ("site.description", cfg ["site"; "description"]);
    ("site.url", cfg ["site"; "url"]);
    ("site.author", cfg ["site"; "author"]);
    ("contact.email", cfg ["contact"; "email"]);
    ("contact.privacyEmail", cfg ["contact"; "privacyEmail"]);
    ("contact.supportEmail", cfg ["contact"; "supportEmail"]);
    ("contact.phone", cfg ["contact"; "phone"]);
    ("contact.address.street", cfg ["contact"; "address"; "street"]);
    ("contact.address.city", cfg ["contact"; "address"; "city"]);
    ("contact.address.state", cfg ["contact"; "address"; "state"]);
    ("contact.address.zipCode", cfg ["contact"; "address"; "zipCode"]);
    ("contact.address.country", cfg ["contact"; "address"; "country"]);
    ("contact.address.full",
      JStr (Js.toString (cfg ["contact"; "address"; "street"]) +:+ ", " +:+
            Js.toString (cfg ["contact"; "address"; "city"]) +:+ ", " +:+
            Js.toString (cfg ["contact"; "address"; "state"]) +:+ " " +:+
            Js.toString (cfg ["contact"; "address"; "zipCode"])));
    ("social.twitter", cfg ["social"; "twitter"]);
    ("social.github", cfg ["social"; "github"]);
    ("social.linkedin", cfg ["social"; "linkedin"]);
    ("social.facebook", cfg ["social"; "facebook"]);
    ("social.instagram", cfg ["social"; "instagram"]);
    ("social.youtube", cfg ["social"; "youtube"]);
    ("social.discord", cfg ["social"; "discord"]);
    ("social.reddit", cfg ["social"; "reddit"]);
    ("legal.privacyPolicyLastUpdated", cfg ["legal"; "privacyPolicyLastUpdated"]);
    ("legal.termsLastUpdated", cfg ["legal"; "termsLastUpdated"]);
    ("legal.doNotSell.processingTime", cfg ["legal"; "doNotSell"; "processingTime"]);
    ("date.now", JStr (date_now env));
    ("date.year", JStr (date_year env));
    ("date.month", JStr (date_month env));
    ("date.day", JStr (date_day env))
  ].

(** [[^}]+] read greedily: the longest run without [}], and the rest. *)
Fixpoint name_run (s : string) : string * string :=
  match s with
  | "" => ("", "")
  | String c s' =>
      if bool_decide (c = "}"%char) then ("", s)
      else let '(n, r) := name_run s' in (String c n, r)
  end.

(** A match of [/\{\{([^}]+)\}\}/] at the start of [s]: its capture group. *)
Definition match_placeholder (s : string) : option string :=
  s1 ← JsString.strip_prefix "{{" s;
  let '(name, rest) := name_run s1 in
  if negb (JsString.eqb name "") && JsString.startsWith rest "}}"
  then Some name else None.

(** The replacement callback [(match, variableName) => ...]: the text to
    put in place of the match, and what is written with [console.warn]. *)
Definition substitute_one (vars : gmap string jsval)
    (match_ variableName : string) : string * list string :=
  let trimmedName := JsString.trim variableName in
  match vars !! trimmedName with
  | Some v => (Js.toString v, [])
  | None => (match_, ["Template variable not found: " +:+ trimmedName])
  end.

(** [content.replace(/\{\{([^}]+)\}\}/g, callback)]. Matches are searched
    left to right and do not overlap: after a match the scan resumes
    behind it, which [skip] counts down. *)
Fixpoint replace_placeholders (vars : gmap string jsval) (skip : nat)
    (s : string) : string * list string :=
  match s with
  | "" => ("", [])
  | String c s' =>
      match skip with
      | S k => replace_placeholders vars k s'
      | O =>
          match match_placeholder s with
          | Some name =>
              let '(out, w) := substitute_one vars ("{{" +:+ name +:+ "}}") name in
              let '(rest, ws) :=
                replace_placeholders vars (3 + String.length name) s' in
              (out +:+ rest, w ++ ws)
          | None =>
              let '(rest, ws) := replace_placeholders vars 0 s' in
              (String c rest, ws)
          end
      end
  end.

(** Substitution over an arbitrary variable map, with its warnings. *)
Definition substitute (vars : gmap string jsval) (content : string)
  : string * list string :=
  replace_placeholders vars 0 content.

(** [processTemplateVariables(content)] and the warnings it logs. *)
Definition processTemplateVariables_log (env : Env) (content : string)
  : string * list string :=
  substitute (variables env) content.

Definition processTemplateVariables (env : Env) (content : string) : string :=
  fst (processTemplateVariables_log env content).

(** ** Content entries and the directory scanner ([scanContentDirectory]) *)

Record ContentEntry := {
  slug : string;
  path : string;
  url : string;
  directory : string;
  mainDirectory : string;
  depth : nat;
  content : string;
  metadata : gmap string jsval
}.

(** What [readdirSync] and [statSync] show of the content tree. A regular
    file carries [matter]'s reading of its text. *)
#[warnings="-register-all"] Inductive fsnode :=
| File (data : gmap string jsval) (markdownContent : string)
| Dir (entries : list (string * fsnode))
| Other.

(** The loop over [Object.entries(data)]: string values go through the
    substitution. Assigning to the key [__proto__] creates no property. *)
Definition processMetadata (env : Env) (data : gmap string jsval)
  : gmap string jsval :=
  delete "__proto__"
    ((fun value =>
        match value with
        | JStr s => JStr (processTemplateVariables env s)
        | _ => value
        end) <$> data).

(** [{ title: ..., description: ..., date: ..., author: ..., ...processedMetadata }] *)
Definition finalMetadata (processedMetadata : gmap string jsval) (slug : string)
  : gmap string jsval :=
  processedMetadata ∪
  list_to_map [
    ("title", Js.or (Js.get processedMetadata "title") (JStr (formatTitle slug)));
    ("description", Js.or (Js.get processedMetadata "description") (JStr ""));
    ("date", Js.or (Js.get processedMetadata "date") JNull);
    ("author", Js.or (Js.get processedMetadata "author") JNull)
  ].

(** The body of the [.md] branch of [scanDir]. *)
Definition makeEntry (env : Env) (relativePath entry : string)
    (data : gmap string jsval) (markdownContent : string) : ContentEntry :=
  let entryRelativePath := Path.join [relativePath; entry] in
  let slug := JsString.replace ".md" "" entry in
  let url :=
    if negb (JsString.eqb relativePath "")
    then JsString.replace_all_char "\" "/" ("/" +:+ relativePath +:+ "/" +:+ slug)
    else "/" +:+ slug in
  let processedMarkdownContent := processTemplateVariables env markdownContent in
  let processedMetadata := processMetadata env data in
  let directory := JsString.replace_all_char "\" "/" relativePath in
  let renderer := createLinkTransformer (originalLinkRenderer env) directory in
  let html := removeFirstH1 (marked_parse env renderer processedMarkdownContent) in
  let mainDirectory :=
    match JsString.split "/" directory with
    | "" :: _ | [] => "root"
    | d :: _ => d
    end in
  {| slug := slug;
     path := entryRelativePath;
     url := url;
     directory := directory;
     mainDirectory := mainDirectory;
     depth := if JsString.eqb directory "" then 0%nat
              else length (JsString.split "/" directory);
     content := html;
     metadata := finalMetadata processedMetadata slug |}.

(** One iteration of the loop of [scanDir(dirPath, relativePath)], for the
    directory entry [entry] that is the node [n]. *)
Fixpoint scanEntry (env : Env) (relativePath entry : string) (n : fsnode)
  : list ContentEntry :=
  match n with
  | Dir entries =>
      let entryRelativePath := Path.join [relativePath; entry] in
      flat_map (fun p => scanEntry env entryRelativePath p.1 p.2) entries
  | File data markdownContent =>
      if JsString.endsWith entry ".md"
      then [makeEntry env relativePath entry data markdownContent]
      else []
  | Other => []
  end.

Definition scanDir (env : Env) (relativePath : string)
    (entries : list (string * fsnode)) : list ContentEntry :=
  flat_map (fun p => scanEntry env relativePath p.1 p.2) entries.

(** ** Module state: the disk and the cache *)

Record Store := {
  (** The listing of the content folder; [None] when it does not exist. *)
  disk : option (list (string * fsnode));
  (** [let cachedContent = null] *)
  cachedContent : option (list ContentEntry);
  (** How many directory walks have been performed. *)
  scans : nat
}.

Definition scanContentDirectory (env : Env) (st : Store)
  : list ContentEntry * Store :=
  let contentEntries :=
    match disk st with
    | None => []
    | Some entries => scanDir env "" entries
    end in
  (contentEntries,
   {| disk := disk st; cachedContent := cachedContent st;
      scans := S (scans st) |}).

Definition isDev (env : Env) : bool :=
  bool_decide (NODE_ENV env = Some "development") || import_meta_env_DEV env.

Definition setCache (c : option (list ContentEntry)) (st : Store) : Store :=
  {| disk := disk st; cachedContent := c; scans := scans st |}.

Definition getAllContent (env : Env) (st : Store) : list ContentEntry * Store :=
  match (if negb (isDev env) then cachedContent st else None) with
  | Some cached => (cached, st)
  | None =>
      let st := if isDev env then setCache None st else st in
      let '(content, st) := scanContentDirectory env st in
      let st := if negb (isDev env) then setCache (Some content) st else st in
      (content, st)
  end.

Definition clearContentCache (st : Store) : Store := setCache None st.

(** An edit of the content folder between two calls. *)
Definition setDisk (d : option (list (string * fsnode))) (st : Store) : Store :=
  {| disk := d; cachedContent := cachedContent st; scans := scans st |}.

(** ** Query layer ([getContentByDirectory]) *)

Definition under (dir : string) (entry : ContentEntry) : bool :=
  JsString.eqb (directory entry) dir
  || JsString.startsWith (directory entry) (dir +:+ "/").

Definition getContentByDirectory (env : Env) (dir : string) (st : Store)
  : list ContentEntry * Store :=
  let '(allContent, st) := getAllContent env st in
  if JsString.eqb dir "root" then
    (List.filter (fun entry => JsString.eqb (directory entry) "root") allContent, st)
  else
    (List.filter (under dir) allContent, st).

(** ** Plain JavaScript objects used as string-keyed tables *)

Module JsObject.

Section WithValues.
Context {A : Type}.

(** Own properties, in creation order. *)
Definition t := list (string * A).

(** The properties every plain object inherits from [Object.prototype]. *)
Definition inherited_keys : list string :=
  ["constructor"; "__defineGetter__"; "__defineSetter__"; "hasOwnProperty";
   "__lookupGetter__"; "__lookupSetter__"; "isPrototypeOf";
   "propertyIsEnumerable"; "toString"; "valueOf"; "__proto__";
   "toLocaleString"].

Inductive read := Own (a : A) | Inherited | Missing.

Fixpoint own (o : t) (k : string) : option A :=
  match o with
  | [] => None
  | (k', a) :: o' => if JsString.eqb k' k then Some a else own o' k
  end.

(** [o[k]] *)
Definition get (o : t) (k : string) : read :=
  match own o k with
  | Some a => Own a
  | None => if bool_decide (k ∈ inherited_keys) then Inherited else Missing
  end.

(** The truth of [o[k]] when the own values are objects: inherited
    members are functions or objects. *)
Definition truthy (r : read) : bool :=
  match r with
  | Own _ | Inherited => true
  | Missing => false
  end.

Fixpoint update (o : t) (k : string) (a : A) : t :=
  match o with
  | [] => []
  | (k', a') :: o' =>
      if JsString.eqb k' k then (k', a) :: o' else (k', a') :: update o' k a
  end.

(** [o[k] = a]; on [__proto__] the inherited setter runs instead. *)
Definition set (o : t) (k : string) (a : A) : t :=
  if JsString.eqb k "__proto__" then o
  else match own o k with
       | Some _ => update o k a
       | None => o ++ [(k, a)]
       end.

(** [delete o[k]] *)
Definition delete (o : t) (k : string) : t :=
  List.filter (fun p => negb (JsString.eqb p.1 k)) o.

(** The number a key denotes when it is an array index: a canonical
    decimal numeral below [2^32 - 1]. *)
Definition array_index (k : string) : option Z :=
  match k with
  | "" => None
  | String c r =>
      if bool_decide (c = "0"%char) && negb (JsString.eqb r "") then None
      else
        match Js.digits_value 0 k with
        | Some n => if n <? 4294967295 then Some n else None
        | None => None
        end
  end.

Fixpoint insert_index (n : Z) (p : string * A) (l : list (Z * (string * A)))
  : list (Z * (string * A)) :=
  match l with
  | [] => [(n, p)]
  | (m, q) :: l' =>
      if n <=? m then (n, p) :: l else (m, q) :: insert_index n p l'
  end.

Fixpoint index_entries (o : t) : list (Z * (string * A)) :=
  match o with
  | [] => []
  | p :: o' =>
      match array_index p.1 with
      | Some n => insert_index n p (index_entries o')
      | None => index_entries o'
      end
  end.

(** [Object.entries(o)]: array-index keys first, in ascending numeric
    order, then the other keys in creation order. *)
Definition entries (o : t) : list (string * A) :=
  (snd <$> index_entries o)
  ++ List.filter (fun p => bool_decide (array_index p.1 = None)) o.

(** [Object.values(o).forEach(f)] for an [f] that changes the value in
    place: key order and keys are unchanged. *)
Definition map_values (f : A -> A) (o : t) : t :=
  (fun p => (p.1, f p.2)) <$> o.

End WithValues.

Arguments t : clear implicits.
Arguments read : clear implicits.

End JsObject.

(** ** [Array.prototype.sort] with a comparator *)

Module JsArray.

Section Sort.
Context {A : Type} (compare : A -> A -> option Z).

(** [compare a b <= 0], a [NaN] result counting as [+0]. *)
Definition before (a b : A) : bool :=
  match compare a b with
  | Some v => v <=? 0
  | None => true
  end.

Fixpoint insert (x : A) (l : list A) : list A :=
  match l with
  | [] => [x]
  | y :: l' => if before x y then x :: l else y :: insert x l'
  end.

(** The sort is stable; for a consistent comparator the result is the
    one the language prescribes. *)
Fixpoint sort (l : list A) : list A :=
  match l with
  | [] => []
  | x :: l' => insert x (sort l')
  end.
End Sort.

End JsArray.

(** ** Sidebar builder ([getSidebarTree]) *)

Record SidebarItem := {
  item_title : jsval;
  item_url : string;
  order : jsval
}.

Record SidebarGroup := {
  group_title : string;
  items : list SidebarItem
}.

Inductive SidebarNode :=
| Leaf (item : SidebarItem)
| Group (title : string) (children : list SidebarItem).

(** [parts[0] || '_root'] for the entry's path below [dir]. *)
Definition groupKey (dir : string) (entry : ContentEntry) : string :=
  let relativePath :=
    if JsString.eqb (directory entry) dir then ""
    else JsString.replace (dir +:+ "/") "" (directory entry) in
  let parts :=
    List.filter (fun p => negb (JsString.eqb p ""))
      (JsString.split "/" relativePath) in
  match parts with
  | p :: _ => p
  | [] => "_root"
  end.

Definition makeItem (entry : ContentEntry) : SidebarItem :=
  {| item_title := Js.get (metadata entry) "title";
     item_url := url entry;
     order := Js.or (Js.get (metadata entry) "order") (JNum 999) |}.

(** The body of [directoryContent.forEach]; [None] is the [TypeError] of
    reading [items] off a value that has none. *)
Definition addToGroups (dir : string) (groups : JsObject.t SidebarGroup)
    (entry : ContentEntry) : option (JsObject.t SidebarGroup) :=
  let key := groupKey dir entry in
  let groups :=
    if negb (JsObject.truthy (JsObject.get groups key)) then
      JsObject.set groups key
        {| group_title :=
             if JsString.eqb key "_root" then formatTitle dir else formatTitle key;
           items := [] |}
    else groups in
  match JsObject.get groups key with
  | JsObject.Own g =>
      Some (JsObject.set groups key
              {| group_title := group_title g;
                 items := items g ++ [makeItem entry] |})
  | _ => None
  end.

Fixpoint buildGroups (dir : string) (groups : JsObject.t SidebarGroup)
    (directoryContent : list ContentEntry) : option (JsObject.t SidebarGroup) :=
  match directoryContent with
  | [] => Some groups
  | entry :: rest =>
      groups' ← addToGroups dir groups entry;
      buildGroups dir groups' rest
  end.

(** [(a, b) => a.order - b.order] *)
Definition compareOrder (a b : SidebarItem) : option Z :=
  Js.sub (order a) (order b).

Definition sortGroup (g : SidebarGroup) : SidebarGroup :=
  {| group_title := group_title g;
     items := JsArray.sort compareOrder (items g) |}.

(** [getSidebarTree] on the content it obtained from [getAllContent]. *)
Definition sidebarTree (allContent : list ContentEntry) (dir : string)
  : option (list SidebarNode) :=
  let directoryContent := List.filter (under dir) allContent in
  groups ← buildGroups dir [] directoryContent;
  let groups := JsObject.map_values sortGroup groups in
  let rootItems :=
    match JsObject.get groups "_root" with
    | JsObject.Own g => Leaf <$> items g
    | _ => []
    end in
  let groups := JsObject.delete groups "_root" in
  Some (rootItems
        ++ ((fun p => Group (group_title p.2) (items p.2)) <$> JsObject.entries groups)).

Definition getSidebarTree (env : Env) (dir : string) (st : Store)
  : option (list SidebarNode) * Store :=
  let '(allContent, st) := getAllContent env st in
  (sidebarTree allContent dir, st).

(** ** Content truncation ([truncateContent]) *)

(** [content.substring(0, maxLength) + '...'] past the limit; a negative
    limit counts as zero for [substring]. *)
Definition truncateContent (content : string) (maxLength : Z) : string :=
  if Z.of_nat (String.length content) <=? maxLength then content
  else String.substring 0 (Z.to_nat maxLength) content +:+ "...".

(** ** Folders of the content directory ([getContentDirectories]) *)

Record DirectoryDescriptor := {
  dir_name : string;
  dir_path : string;
  dir_title : string;
  dir_url : string
}.

Definition isDirectory (n : fsnode) : bool :=
  match n with
  | Dir _ => true
  | _ => false
  end.

Definition getContentDirectories (st : Store) : list DirectoryDescriptor :=
  match disk st with
  | None => []
  | Some entries =>
      (fun p : string * fsnode =>
         {| dir_name := p.1;
            dir_path := "content/" +:+ p.1;
            dir_title := formatTitle p.1;
            dir_url := "/" +:+ p.1 |})
      <$> List.filter (fun p => isDirectory p.2) entries
  end.

(** ** Lookup by url ([getContentByUrl]) *)

(** [u.endsWith('/') ? u.slice(0, -1) : u] *)
Definition trimSlash (u : string) : string :=
  if JsString.endsWith u "/" then JsString.slice_end u 1 else u.

(** The entry found, [None] for [undefined]; the lines written with
    [console.log] are not part of the model. *)
Definition getContentByUrl (env : Env) (u : string) (st : Store)
  : option ContentEntry * Store :=
  let '(allContent, st) := getAllContent env st in
  let normalizedUrl := trimSlash u in
  (List.find (fun entry => JsString.eqb (trimSlash (url entry)) normalizedUrl)
     allContent,
   st).

(** ** Subdirectories ([getSubDirectories]) *)

(** [subdirs.add(x)] on a [Set], kept in insertion order. *)
Definition set_add (x : string) (s : list string) : list string :=
  if bool_decide (x ∈ s) then s else s ++ [x].

(** The body of [contents.forEach]. *)
Definition addSubdir (dir : string) (subdirs : list string) (entry : ContentEntry)
  : list string :=
  let relativePath := JsString.replace (dir +:+ "/") "" (directory entry) in
  if negb (JsString.eqb relativePath "") && JsString.includes relativePath "/" then
    match JsString.split "/" relativePath with
    | firstLevel :: _ => set_add firstLevel subdirs
    | [] => subdirs
    end
  else subdirs.

Definition subDirectories (allContent : list ContentEntry) (dir : string)
  : list DirectoryDescriptor :=
  let contents :=
    List.filter
      (fun entry => negb (JsString.eqb (directory entry) "root") && under dir entry)
      allContent in
  (fun subdir =>
     {| dir_name := subdir;
        dir_path := dir +:+ "/" +:+ subdir;
        dir_title := formatTitle subdir;
        dir_url := "/" +:+ dir +:+ "/" +:+ subdir |})
  <$> fold_left (addSubdir dir) contents [].

Definition getSubDirectories (env : Env) (dir : string) (st : Store)
  : list DirectoryDescriptor * Store :=
  let '(allContent, st) := getAllContent env st in
  (subDirectories allContent dir, st).

(** ** Sidebar of all folders ([getAllDirectoriesSidebar]) *)

Record SidebarSection := {
  section_title : string;
  section_url : string;
  section_children : list SidebarNode
}.

(** The loop [directories.forEach]: each turn calls [getSidebarTree], which
    reads the content through [getAllContent]; [None] is a thrown
    [TypeError], which ends the loop. *)
Fixpoint sidebarSections (env : Env) (directories : list DirectoryDescriptor)
    (result : list SidebarSection) (st : Store)
  : option (list SidebarSection) * Store :=
  match directories with
  | [] => (Some result, st)
  | dir :: rest =>
      let '(dirContent, st) := getSidebarTree env (dir_name dir) st in
      match dirContent with
      | None => (None, st)
      | Some [] => sidebarSections env rest result st
      | Some nodes =>
          sidebarSections env rest
            (result ++ [{| section_title := dir_title dir;
                           section_url := dir_url dir;
                           section_children := nodes |}]) st
      end
  end.

Definition getAllDirectoriesSidebar (env : Env) (st : Store)
  : option (list SidebarSection) * Store :=
  sidebarSections env (getContentDirectories st) [] st.

(** * Vocabulary of the properties *)

(** ** A sample environment and sample content folders *)

Definition demo_env : Env :=
  {| siteConfig := fun p =>
       match p with
       | ["site"; "name"] => JStr "Acme"
       | _ => JStr ""
       end;
     date_now := "11/3/2026"; date_year := "2026";
     date_month := "November"; date_day := "3";
     NODE_ENV := Some "production"; import_meta_env_DEV := false;
     originalLinkRenderer := fun token => href token;
     marked_parse := fun _ md => md |}.

Definition cold (d : list (string * fsnode)) : Store :=
  {| disk := Some d; cachedContent := None; scans := 0 |}.

Definition page (frontMatter : list (string * jsval)) : fsnode :=
  File (list_to_map frontMatter) "".

(** ** Directory queries *)

(** The entry lies in [dir] or below it. *)
Definition in_directory (dir : string) (entry : ContentEntry) : Prop :=
  directory entry = dir ∨ ∃ rest, directory entry = dir +:+ "/" +:+ rest.

(** ** Cache *)

(** What may happen after the first call: another call, or an edit of the
    content folder. *)
Inductive action :=
| Call
| Edit (d : option (list (string * fsnode))).

(** Runs the actions in turn and collects what the calls return. *)
Fixpoint run (env : Env) (acts : list action) (st : Store)
  : list (list ContentEntry) * Store :=
  match acts with
  | [] => ([], st)
  | Call :: acts' =>
      let '(r, st) := getAllContent env st in
      let '(rs, st) := run env acts' st in
      (r :: rs, st)
  | Edit d :: acts' => run env acts' (setDisk d st)
  end.

(** ** Template substitution *)

Fixpoint has_char (c : ascii) (s : string) : bool :=
  match s with
  | "" => false
  | String a s' => bool_decide (a = c) || has_char c s'
  end.

(** What may stand between the braces of a placeholder: a non-empty text
    without closing brace. *)
Definition capture (name : string) : Prop :=
  name ≠ "" ∧ has_char "}" name = false.

(** The text opens with a placeholder. *)
Definition starts_placeholder (s : string) : Prop :=
  ∃ name rest, capture name ∧ s = "{{" +:+ name +:+ "}}" +:+ rest.

(** A text read from left to right as placeholders and other characters. *)
Inductive piece :=
| Text (c : ascii)
| Placeholder (name : string).

Inductive parses : string -> list piece -> Prop :=
| parses_end : parses "" []
| parses_placeholder name rest ps :
    capture name -> parses rest ps ->
    parses ("{{" +:+ name +:+ "}}" +:+ rest) (Placeholder name :: ps)
| parses_text c s ps :
    ¬ starts_placeholder (String c s) -> parses s ps ->
    parses (String c s) (Text c :: ps).

(** A known placeholder is rendered as the string form of its value, an
    unknown one as itself. *)
Definition render (vars : gmap string jsval) (p : piece) : string :=
  match p with
  | Text c => String c ""
  | Placeholder name =>
      match vars !! JsString.trim name with
      | Some v => Js.toString v
      | None => "{{" +:+ name +:+ "}}"
      end
  end.

Definition warning (vars : gmap string jsval) (p : piece) : list string :=
  match p with
  | Text c => []
  | Placeholder name =>
      match vars !! JsString.trim name with
      | Some v => []
      | None => ["Template variable not found: " +:+ JsString.trim name]
      end
  end.

Definition concat_strings (l : list string) : string := foldr String.app "" l.







(** ** Heading stripping *)

(** How many times [<h1] occurs in the text. *)
Fixpoint count_h1 (s : string) : nat :=
  ((if JsString.startsWith s "<h1" then 1 else 0)
   + match s with
     | "" => 0
     | String _ s' => count_h1 s'
     end)%nat.

(** How many times [<h1] occurs outside comments [<!-- ... -->];
    [inComment] tells whether the text starts inside a comment. *)
Fixpoint h1_elements (inComment : bool) (s : string) : nat :=
  match s with
  | "" => 0%nat
  | String _ s' =>
      if inComment then
        h1_elements (negb (JsString.startsWith s "-->")) s'
      else if JsString.startsWith s "<!--" then h1_elements true s'
      else ((if JsString.startsWith s "<h1" then 1 else 0) + h1_elements false s')%nat
  end.

(** Markup in which no [<] stands inside a tag, that is between a [<] and
    the next [>]; [inTag] tells whether the text starts inside a tag. *)
Fixpoint tags_ok (inTag : bool) (s : string) : bool :=
  match s with
  | "" => true
  | String c s' =>
      if bool_decide (c = "<"%char) then negb inTag && tags_ok true s'
      else if bool_decide (c = ">"%char) then tags_ok false s'
      else tags_ok inTag s'
  end.

Fixpoint has_line_terminator (s : string) : bool :=
  match s with
  | "" => false
  | String c s' => JsString.is_line_terminator c || has_line_terminator s'
  end.

(** ** Sidebar *)

(** The distinct keys of a sequence, in the order in which they are first
    met. *)
Definition first_seen (keys : list string) : list string :=
  fold_left (fun acc k => if bool_decide (k ∈ acc) then acc else acc ++ [k]) keys [].

(** The sidebar items of the entries grouped under [key], in scan order. *)
Definition items_of (dir key : string) (entries : list ContentEntry)
  : list SidebarItem :=
  makeItem <$> filter (fun e => groupKey dir e = key) entries.

Definition numeric (item : SidebarItem) : Prop := ∃ n, order item = JNum n.

Definition order_le (a b : SidebarItem) : Prop :=
  ∃ x y, order a = JNum x ∧ order b = JNum y ∧ x ≤ y.

(** [out] is [inp] sorted by ascending order, items of equal order keeping
    the relative position they have in [inp]. *)
Definition sorted_stably (out inp : list SidebarItem) : Prop :=
  out ≡ₚ inp
  ∧ StronglySorted order_le out
  ∧ ∀ v, filter (fun i => order i = v) out = filter (fun i => order i = v) inp.

(** A group key that names no inherited member of plain objects and is
    not an array index. *)
Definition plain_key (key : string) : Prop :=
  (key ∉ JsObject.inherited_keys) ∧ JsObject.array_index key = None.

(** The table [groups] after the loop over [entries]. *)
Definition grouped (dir : string) (entries : list ContentEntry)
  : JsObject.t SidebarGroup :=
  (fun key =>
     (key, {| group_title :=
                if JsString.eqb key "_root" then formatTitle dir else formatTitle key;
              items := items_of dir key entries |}))
  <$> first_seen (groupKey dir <$> entries).

(** One turn of the loop on a key that is not inherited: the item joins
    the group of its key, which is created at the end of the table when
    the key is new. *)
Definition add_item (key title : string) (item : SidebarItem)
    (groups : JsObject.t SidebarGroup) : JsObject.t SidebarGroup :=
  match JsObject.own groups key with
  | Some g =>
      JsObject.update groups key
        {| group_title := group_title g; items := items g ++ [item] |}
  | None => groups ++ [(key, {| group_title := title; items := [item] |})]
  end.

(** The front matter gives no [order] or gives a number. *)
Definition numeric_order (entry : ContentEntry) : Prop :=
  metadata entry !! "order" = None
  ∨ ∃ n, metadata entry !! "order" = Some (JNum n).

(** Sample folders for the sidebar. *)
Definition numbered_chapters : list (string * fsnode) :=
  [("docs", Dir [("10", Dir [("x.md", page [])]);
                 ("9", Dir [("y.md", page [])])])].

Definition ordered_pages : list (string * fsnode) :=
  [("docs", Dir [("b.md", page [("order", JNum 2)]);
                 ("a.md", page [("order", JNum 1)]);
                 ("c.md", page []);
                 ("d.md", page [("order", JNum 1)]);
                 ("guide", Dir [("z.md", page [("order", JNum 5)]);
                                ("y.md", page [("order", JNum 3)])]);
                 ("api", Dir [("index.md", page [])])])].

Definition zero_and_thousand : list (string * fsnode) :=
  [("docs", Dir [("a.md", page [("order", JNum 0)]);
                 ("b.md", page [("order", JNum 1000)])])].

Definition zero_and_one : list (string * fsnode) :=
  [("docs", Dir [("a.md", page [("order", JNum 0)]);
                 ("b.md", page [("order", JNum 1)]);
                 ("c.md", page [("order", JStr "")])])].

(** * Vocabulary of the further properties *)

(** The action is a call of [getAllContent]. *)
Definition is_call (a : action) : bool :=
  match a with
  | Call => true
  | Edit _ => false
  end.

(** The sample environment, in development mode. *)
Definition dev_env : Env :=
  {| siteConfig := siteConfig demo_env;
     date_now := date_now demo_env; date_year := date_year demo_env;
     date_month := date_month demo_env; date_day := date_day demo_env;
     NODE_ENV := Some "development"; import_meta_env_DEV := false;
     originalLinkRenderer := originalLinkRenderer demo_env;
     marked_parse := marked_parse demo_env |}.

(** The items a node holds. *)
Definition node_items (node : SidebarNode) : list SidebarItem :=
  match node with
  | Leaf item => [item]
  | Group _ children => children
  end.

(** The items of a sidebar, leaves and children of groups, from top to
    bottom. *)
Definition tree_items (nodes : list SidebarNode) : list SidebarItem :=
  nodes ≫= node_items.

(** The section of a folder: its descriptor's title and url over its
    sidebar. *)
Definition section_of (all : list ContentEntry) (d : DirectoryDescriptor)
  : SidebarSection :=
  {| section_title := dir_title d;
     section_url := dir_url d;
     section_children := default [] (sidebarTree all (dir_name d)) |}.

(** The text a piece was read from. *)
Definition piece_text (p : piece) : string :=
  match p with
  | Text c => String c ""
  | Placeholder name => "{{" +:+ name +:+ "}}"
  end.

(** A front-matter value after the substitution pass. *)
Definition substituted (env : Env) (v : jsval) : jsval :=
  match v with
  | JStr s => JStr (processTemplateVariables env s)
  | _ => v
  end.

(** The name an entry adds to the set of subdirectories, if any. *)
Definition first_level (dir : string) (entry : ContentEntry) : option string :=
  let relativePath := JsString.replace (dir +:+ "/") "" (directory entry) in
  if negb (JsString.eqb relativePath "") && JsString.includes relativePath "/"
  then head (JsString.split "/" relativePath)
  else None.

(** A name as a directory listing gives it, without backslash. *)
Definition plain_name (n : string) : Prop :=
  n ≠ "" ∧ n ≠ "." ∧ n ≠ ".."
  ∧ has_char "/" n = false ∧ has_char "\" n = false.

(** The name of a markdown file in which [.md] occurs as the extension
    only, after a non-empty stem. *)
Definition md_name (name stem : string) : Prop :=
  name = stem +:+ ".md" ∧ stem ≠ ""
  ∧ JsString.includes (stem +:+ ".m") ".md" = false.

(** A regular file whose name ends with [.md] has a name of that form. *)
Definition file_name_ok (name : string) (n : fsnode) : Prop :=
  match n with
  | File _ _ => JsString.endsWith name ".md" = true → ∃ stem, md_name name stem
  | _ => True
  end.

(** A content tree with plain names, no name twice in a folder, and
    markdown files named as above. *)
Inductive wf_listing : list (string * fsnode) -> Prop :=
| wf_nil : wf_listing []
| wf_cons name n rest :
    plain_name name -> name ∉ rest.*1 -> file_name_ok name n ->
    wf_node n -> wf_listing rest -> wf_listing ((name, n) :: rest)
with wf_node : fsnode -> Prop :=
| wf_file data markdownContent : wf_node (File data markdownContent)
| wf_other : wf_node Other
| wf_dir entries : wf_listing entries -> wf_node (Dir entries).

(** The entry of the file [stem.md] in the folder reached through [dirs]. *)
Definition entry_at (dirs : list string) (stem : string) (e : ContentEntry) : Prop :=
  slug e = stem
  ∧ path e = JsString.join "/" (dirs ++ [stem +:+ ".md"])
  ∧ url e = "/" +:+ JsString.join "/" (dirs ++ [stem])
  ∧ directory e = JsString.join "/" dirs
  ∧ mainDirectory e = hd "root" dirs
  ∧ depth e = length dirs.

(** The entry was produced for the directory entry [name] of the folder
    [segs]: for the file itself, or for a file below the folder [name]. *)
Definition from_name (segs : list string) (name : string) (e : ContentEntry) : Prop :=
  ∃ init stem,
    entry_at (segs ++ init) stem e
    ∧ Forall plain_name init ∧ stem ≠ "" ∧ has_char "/" stem = false
    ∧ ((init = [] ∧ name = stem +:+ ".md") ∨ ∃ init', init = name :: init').

(** The next call of [getAllContent] reads the disk. *)
Definition reads_disk (env : Env) (st : Store) : Prop :=
  isDev env = true ∨ cachedContent st = None.

(** A well-formed sample tree. *)
Definition sample_tree : list (string * fsnode) :=
  [("index.md", page []);
   ("docs", Dir [("intro.md", page []);
                 ("guide", Dir [("setup.md", page [])]);
                 ("notes.txt", page [])]);
   ("docs.md", page []);
   ("blog", Dir [("intro.md", page [])])].

(** Text of ASCII characters only: the alphabet of the model, on which
    upper-casing maps one character to one character. *)
Fixpoint ascii_text (s : string) : bool :=
  match s with
  | "" => true
  | String c s' => (Ascii.nat_of_ascii c <? 128)%nat && ascii_text s'
  end.

(** * Properties *)

(** ** String facts *)

Lemma app_empty_r (s : string) : s +:+ "" = s.
Proof. induction s; simpl; [done|]. unfold String.app in *. simpl. by f_equal. Qed.

Lemma app_assoc_s (a b c : string) : (a +:+ b) +:+ c = a +:+ b +:+ c.
Proof. induction a; simpl; [done|]. unfold String.app in *; simpl. by f_equal. Qed.

Lemma app_cons (c : ascii) (a b : string) : String c a +:+ b = String c (a +:+ b).
Proof. done. Qed.

Lemma strip_prefix_Some (p s r : string) :
  JsString.strip_prefix p s = Some r ↔ s = p +:+ r.
Proof.
  revert s. induction p as [|a p IH]; intros s; simpl.
  - split; [by intros [= ->]|by intros ->].
  - destruct s as [|b s]; [split; [done|by rewrite app_cons]|].
    case_bool_decide as Hab.
    + subst b. rewrite IH, app_cons. split; [by intros ->|by intros [= ->]].
    + rewrite app_cons. split; [done|]. intros [= ? ?]. by subst.
Qed.

Lemma prefix_strip (p s : string) :
  String.prefix p s = true ↔ ∃ r, JsString.strip_prefix p s = Some r.
Proof.
  revert s. induction p as [|a p IH]; intros s; simpl.
  - split; [eauto|]. by destruct s.
  - destruct s as [|b s]; [split; [done|by intros [? ?]]|]. simpl.
    destruct (ascii_dec a b) as [->|Hne].
    + rewrite bool_decide_eq_true_2 by done. apply IH.
    + rewrite bool_decide_eq_false_2 by done. split; [done|by intros [? ?]].
Qed.

Lemma startsWith_spec (s p : string) :
  JsString.startsWith s p = true ↔ ∃ r, s = p +:+ r.
Proof.
  unfold JsString.startsWith. rewrite prefix_strip.
  split; intros [r Hr]; exists r; by apply strip_prefix_Some.
Qed.

Lemma eqb_spec (a b : string) : JsString.eqb a b = true ↔ a = b.
Proof. unfold JsString.eqb. apply bool_decide_eq_true. Qed.

(** ** Link transformer *)

(** C3. With current directory [blog], whatever the title and text of the
    link token: [./other.md] becomes [/blog/other], [../docs/setup.md]
    becomes [/docs/setup], [other-file] becomes [/blog/other-file];
    [https://example.com], [#section] and the empty href are unchanged;
    [/already/absolute] is unchanged and [/already/absolute.md] only loses
    its extension. Title and text are untouched, and the rendered link is
    the default renderer's output for the rewritten token. *)
Theorem link_transformer_blog (ti : option string) (tx : string)
    (render : LinkToken -> string) :
  let tok h := {| href := h; title := ti; text := tx |} in
  transformLink "blog" (tok "./other.md") = tok "/blog/other"
  ∧ transformLink "blog" (tok "../docs/setup.md") = tok "/docs/setup"
  ∧ transformLink "blog" (tok "other-file") = tok "/blog/other-file"
  ∧ transformLink "blog" (tok "https://example.com") = tok "https://example.com"
  ∧ transformLink "blog" (tok "#section") = tok "#section"
  ∧ transformLink "blog" (tok "") = tok ""
  ∧ transformLink "blog" (tok "/already/absolute") = tok "/already/absolute"
  ∧ transformLink "blog" (tok "/already/absolute.md") = tok "/already/absolute"
  ∧ ∀ h, createLinkTransformer render "blog" (tok h)
         = render (tok (transformHref "blog" h)).
Proof.
  intros tok. unfold transformLink, tok; simpl.
  repeat split; f_equal; vm_compute; reflexivity.
Qed.

(** ** Query layer *)

Lemma under_spec (dir : string) (entry : ContentEntry) :
  under dir entry = true ↔ in_directory dir entry.
Proof.
  unfold under, in_directory.
  rewrite orb_true_iff, eqb_spec, startsWith_spec.
  split; (intros [H|[r H]]; [by left|right; exists r]).
  - by rewrite H, app_assoc_s.
  - by rewrite H, app_assoc_s.
Qed.

Global Instance in_directory_dec dir entry : Decision (in_directory dir entry).
Proof.
  refine (cast_if (decide (under dir entry = true))); by rewrite <- under_spec.
Defined.

Lemma filter_under (dir : string) (l : list ContentEntry) :
  List.filter (under dir) l = filter (in_directory dir) l.
Proof.
  induction l as [|e l IH]; [done|]. simpl. rewrite filter_cons.
  destruct (under dir e) eqn:Hu.
  - rewrite decide_True by by apply under_spec. by f_equal.
  - rewrite decide_False; [done|]. rewrite <- under_spec. congruence.
Qed.

(** C5. For an argument other than [root], [getContentByDirectory]
    returns, in scan order, exactly the entries whose directory is the
    argument or starts with the argument followed by a slash. For [blog]
    an entry of directory [blog/news] is returned and an entry of
    directory [blog2] is not. The call leaves the store as [getAllContent]
    leaves it. *)
Theorem getContentByDirectory_non_root (env : Env) (dir : string) (st : Store) :
  dir ≠ "root" →
  getContentByDirectory env dir st
  = (filter (in_directory dir) (getAllContent env st).1, (getAllContent env st).2)
  ∧ (∀ e, e ∈ (getAllContent env st).1 → directory e = "blog/news" →
          e ∈ (getContentByDirectory env "blog" st).1)
  ∧ (∀ e, directory e = "blog2" → e ∉ (getContentByDirectory env "blog" st).1).
Proof.
  intros Hdir.
  assert (Hgen : ∀ d, d ≠ "root" →
    getContentByDirectory env d st
    = (filter (in_directory d) (getAllContent env st).1, (getAllContent env st).2)).
  { intros d Hd. unfold getContentByDirectory.
    destruct (getAllContent env st) as [all st'] eqn:Hall; simpl.
    destruct (JsString.eqb d "root") eqn:Hr; [by apply eqb_spec in Hr|].
    by rewrite filter_under. }
  split; [by apply Hgen|].
  rewrite (Hgen "blog") by done. simpl.
  split.
  - intros e He Hd. apply list_elem_of_filter. split; [|done].
    right. exists "news". by rewrite Hd.
  - intros e Hd [Hin _]%list_elem_of_filter.
    destruct Hin as [Hin|[r Hin]]; rewrite Hd in Hin; discriminate.
Qed.

Lemma getContentByDirectory_non_root_witness :
  (filter (in_directory "blog")
     (getAllContent demo_env
        (cold [("blog", Dir [("a.md", page []); ("news", Dir [("b.md", page [])])]);
               ("blog2", Dir [("c.md", page [])])])).1
   = (getContentByDirectory demo_env "blog"
        (cold [("blog", Dir [("a.md", page []); ("news", Dir [("b.md", page [])])]);
               ("blog2", Dir [("c.md", page [])])])).1).
Proof.
  pose proof (getContentByDirectory_non_root demo_env "blog"
    (cold [("blog", Dir [("a.md", page []); ("news", Dir [("b.md", page [])])]);
           ("blog2", Dir [("c.md", page [])])])) as H.
  destruct H as [H _]; [discriminate|]. by rewrite H.
Defined.

(** ** Content cache *)

Lemma getAllContent_warm (env : Env) (st : Store) (c : list ContentEntry) :
  isDev env = false → cachedContent st = Some c → getAllContent env st = (c, st).
Proof. intros Hdev Hc. unfold getAllContent. by rewrite Hdev, Hc. Qed.

Lemma getAllContent_cold (env : Env) (st : Store) :
  isDev env = false → cachedContent st = None →
  getAllContent env st
  = ((scanContentDirectory env st).1,
     setCache (Some (scanContentDirectory env st).1) (scanContentDirectory env st).2).
Proof. intros Hdev Hc. unfold getAllContent. by rewrite Hdev, Hc. Qed.

Lemma run_warm (env : Env) (acts : list action) (st : Store)
    (c : list ContentEntry) :
  isDev env = false → cachedContent st = Some c →
  Forall (eq c) (run env acts st).1
  ∧ scans (run env acts st).2 = scans st
  ∧ cachedContent (run env acts st).2 = Some c.
Proof.
  intros Hdev. revert st.
  induction acts as [|[|d] acts IH]; intros st Hc; simpl.
  - done.
  - rewrite (getAllContent_warm env st c) by done.
    destruct (IH st Hc) as (Hall & Hs & Hcache).
    destruct (run env acts st) as [rs st']; simpl in *. by repeat constructor.
  - by apply (IH (setDisk d st)).
Qed.

(** C6. Outside development mode, a call on the cold cache walks the
    content folder once and stores the result; whatever calls and edits of
    the folder follow, every call returns that same sequence and no further
    walk happens; [clearContentCache] makes the cache cold again, and the
    next call walks the folder as it is then. *)
Theorem cache_outside_development (env : Env) (st : Store) (acts : list action) :
  isDev env = false →
  cachedContent st = None →
  let first := getAllContent env st in
  let later := run env acts first.2 in
  let again := getAllContent env (clearContentCache later.2) in
  first.1 = (scanContentDirectory env st).1
  ∧ scans first.2 = S (scans st)
  ∧ cachedContent first.2 = Some first.1
  ∧ Forall (eq first.1) later.1
  ∧ scans later.2 = scans first.2
  ∧ cachedContent later.2 = Some first.1
  ∧ cachedContent (clearContentCache later.2) = None
  ∧ again.1 = (scanContentDirectory env later.2).1
  ∧ scans again.2 = S (scans later.2)
  ∧ cachedContent again.2 = Some again.1.
Proof.
  intros Hdev Hcold first later again.
  pose proof (getAllContent_cold env st Hdev Hcold) as Hf. fold first in Hf.
  assert (Hfirst : cachedContent first.2 = Some first.1) by by rewrite Hf.
  destruct (run_warm env acts first.2 first.1 Hdev Hfirst) as (Hall & Hs & Hc).
  fold later in Hall, Hs, Hc.
  pose proof (getAllContent_cold env (clearContentCache later.2) Hdev eq_refl)
    as Ha.
  fold again in Ha.
  repeat split; try done.
  - by rewrite Hf.
  - by rewrite Hf.
  - by rewrite Ha.
  - by rewrite Ha.
  - by rewrite Ha.
Qed.

Lemma cache_outside_development_witness :
  isDev demo_env = false
  ∧ cachedContent (cold [("a.md", page [])]) = None
  ∧ Forall (eq (getAllContent demo_env (cold [("a.md", page [])])).1)
      (run demo_env [Call; Edit (Some [("b.md", page [])]); Call]
         (getAllContent demo_env (cold [("a.md", page [])])).2).1.
Proof.
  split; [reflexivity|]. split; [reflexivity|].
  apply (cache_outside_development demo_env (cold [("a.md", page [])])
           [Call; Edit (Some [("b.md", page [])]); Call]); reflexivity.
Defined.

(** ** Scanner: evaluations *)

(** C1 (evaluation). A file [a.md] whose front matter gives [title] as the
    empty string is scanned into an entry whose [metadata.title] is the
    empty string: the spread of the front matter overwrites the default
    computed from the slug. *)
Theorem title_empty_when_front_matter_title_empty :
  (fun e => (slug e, metadata e !! "title")) <$>
    (getAllContent demo_env (cold [("a.md", page [("title", JStr "")])])).1
  = [("a", Some (JStr ""))]
  ∧ formatTitle "a" = "A".
Proof. split; vm_compute; reflexivity. Qed.

(** C2 (evaluation). With [index.md] in the content folder itself and
    [a.md] in a folder named [root], [getContentByDirectory("root")]
    returns the entry of [root/a.md] only; the entry located directly in
    the content folder, whose directory is the empty string, is left out. *)
Theorem root_query_misses_top_level_entries :
  (fun e => (path e, directory e)) <$>
    (getAllContent demo_env
       (cold [("index.md", page []); ("root", Dir [("a.md", page [])])])).1
  = [("index.md", ""); ("root/a.md", "root")]
  ∧ (fun e => (path e, directory e)) <$>
      (getContentByDirectory demo_env "root"
         (cold [("index.md", page []); ("root", Dir [("a.md", page [])])])).1
    = [("root/a.md", "root")]
  ∧ (getContentByDirectory demo_env "root" (cold [("index.md", page [])])).1 = [].
Proof. repeat split; vm_compute; reflexivity. Qed.

(** C4 (evaluation). Two files of one folder, [x.mdy.md] and [xy.md.md],
    are scanned into two entries with the same url: the slug is the file
    name without its first [.md], not without its extension. *)
Theorem url_collision_on_inner_md :
  (fun e => (path e, slug e, url e)) <$>
    (getAllContent demo_env
       (cold [("x.mdy.md", page []); ("xy.md.md", page [])])).1
  = [("x.mdy.md", "xy.md", "/xy.md"); ("xy.md.md", "xy.md", "/xy.md")].
Proof. vm_compute; reflexivity. Qed.

(** ** Template substitution *)

Lemma name_run_spec (s n r : string) :
  name_run s = (n, r) →
  s = n +:+ r ∧ has_char "}" n = false ∧ (r = "" ∨ ∃ r', r = String "}" r').
Proof.
  revert n r. induction s as [|c s IH]; intros n r; simpl.
  - intros [= <- <-]. auto.
  - case_bool_decide as Hc.
    + intros [= <- <-]. subst c. eauto.
    + destruct (name_run s) as [n' r'] eqn:Hrun. intros [= <- <-].
      destruct (IH n' r' eq_refl) as (-> & Hn & Hr).
      repeat split; [|done]. simpl. by rewrite bool_decide_eq_false_2.
Qed.

Lemma name_run_app (n r : string) :
  has_char "}" n = false → name_run (n +:+ String "}" r) = (n, String "}" r).
Proof.
  induction n as [|c n IH]; simpl; [done|].
  intros [Hc Hn]%orb_false_iff. rewrite Hc. by rewrite IH.
Qed.

Lemma match_placeholder_Some (s name : string) :
  match_placeholder s = Some name ↔
  capture name ∧ ∃ rest, s = "{{" +:+ name +:+ "}}" +:+ rest.
Proof.
  unfold match_placeholder. split.
  - destruct (JsString.strip_prefix "{{" s) as [s1|] eqn:Hs; [|done]. simpl.
    apply strip_prefix_Some in Hs as ->.
    destruct (name_run s1) as [n r] eqn:Hrun.
    destruct (name_run_spec _ _ _ Hrun) as (-> & Hn & _).
    destruct (JsString.eqb n "") eqn:He; [done|]. simpl.
    destruct (JsString.startsWith r "}}") eqn:Hr; [|done].
    intros [= <-]. apply startsWith_spec in Hr as [rest ->].
    split; [split; [|done]|by exists rest].
    intros ->. by vm_compute in He.
  - intros [[Hne Hn] [rest ->]].
    assert (JsString.strip_prefix "{{" ("{{" +:+ name +:+ "}}" +:+ rest)
            = Some (name +:+ "}}" +:+ rest)) as -> by by apply strip_prefix_Some.
    simpl. change ("}}" +:+ rest) with (String "}" (String "}" rest)).
    rewrite name_run_app by done.
    destruct (JsString.eqb name "") eqn:He; [by apply eqb_spec in He|].
    assert (JsString.startsWith (String "}" (String "}" rest)) "}}" = true) as ->
      by (apply startsWith_spec; by exists rest).
    done.
Qed.

Lemma match_placeholder_None (s : string) :
  match_placeholder s = None ↔ ¬ starts_placeholder s.
Proof.
  split.
  - intros Hnone (name & rest & Hc & Hs).
    assert (match_placeholder s = Some name) as Hsome
      by (apply match_placeholder_Some; eauto).
    congruence.
  - intros Hno. destruct (match_placeholder s) as [name|] eqn:Hm; [|done].
    apply match_placeholder_Some in Hm as [Hc [rest Hs]].
    destruct Hno. by exists name, rest.
Qed.

Lemma replace_placeholders_skip (vars : gmap string jsval) (m rest : string) :
  replace_placeholders vars (String.length m) (m +:+ rest)
  = replace_placeholders vars 0 rest.
Proof. induction m as [|c m IH]; [done|]. by rewrite app_cons. Qed.

Lemma length_app_s (a b : string) :
  String.length (a +:+ b) = (String.length a + String.length b)%nat.
Proof. induction a; simpl; [done|]. by f_equal. Qed.

Lemma substitute_parses (vars : gmap string jsval) (text : string)
    (ps : list piece) :
  parses text ps →
  substitute vars text
  = (concat_strings (render vars <$> ps), concat (warning vars <$> ps)).
Proof.
  unfold substitute. induction 1 as [|name rest ps Hc Hp IH|c s ps Hno Hp IH].
  - done.
  - rewrite <- (app_assoc_s name "}}" rest).
    change ("{{" +:+ (name +:+ "}}") +:+ rest)
      with (String "{" (("{" +:+ name +:+ "}}") +:+ rest)).
    cbn [replace_placeholders].
    assert (match_placeholder (String "{" (("{" +:+ name +:+ "}}") +:+ rest))
            = Some name) as ->.
    { apply match_placeholder_Some. split; [done|]. exists rest.
      by rewrite <- (app_assoc_s name "}}" rest). }
    replace (3 + String.length name)%nat with (String.length ("{" +:+ name +:+ "}}")).
    2:{ rewrite !length_app_s. simpl. lia. }
    rewrite replace_placeholders_skip, IH.
    unfold substitute_one. simpl.
    destruct (vars !! JsString.trim name); simpl; [done|].
    by rewrite app_assoc_s.
  - cbn [replace_placeholders].
    apply match_placeholder_None in Hno as ->. by rewrite IH.
Qed.

Lemma parses_total (text : string) : ∃ ps, parses text ps.
Proof.
  remember (String.length text) as n eqn:Hn.
  revert text Hn. induction (lt_wf n) as [n _ IH]. intros text ->.
  destruct (match_placeholder text) as [name|] eqn:Hm.
  - apply match_placeholder_Some in Hm as [Hc [rest ->]].
    destruct (IH (String.length rest)) with (text := rest) as [ps Hps]; [|done|].
    { rewrite !length_app_s. simpl. lia. }
    exists (Placeholder name :: ps). by constructor.
  - destruct text as [|c s]; [exists []; constructor|].
    destruct (IH (String.length s)) with (text := s) as [ps Hps]; [simpl; lia|done|].
    exists (Text c :: ps). constructor; [|done]. by apply match_placeholder_None.
Qed.





















(** ** Heading stripping *)

Lemma tag_rest_spec (s r : string) :
  tag_rest s = Some r → ∃ a, s = a +:+ ">" +:+ r.
Proof.
  revert r. induction s as [|c s IH]; intros r; simpl; [done|].
  case_bool_decide as Hc.
  - intros [= ->]. subst c. by exists "".
  - intros [a ->]%IH. by exists (String c a).
Qed.

Lemma tag_rest_app (a r : string) :
  has_char ">" a = false → tag_rest (a +:+ ">" +:+ r) = Some r.
Proof.
  induction a as [|c a IH]; simpl; [done|].
  intros [Hc Ha]%orb_false_iff. rewrite Hc. by apply IH.
Qed.

Lemma lazy_close_spec (s r : string) :
  lazy_close s = Some r → ∃ i, s = i +:+ "</h1>" +:+ r.
Proof.
  revert r. induction s as [|c s IH]; intros r.
  - simpl. done.
  - cbn [lazy_close].
    destruct (JsString.strip_prefix "</h1>" (String c s)) as [rest|] eqn:Hp.
    + intros [= ->]. apply strip_prefix_Some in Hp. by exists "".
    + destruct (JsString.is_line_terminator c); [done|].
      intros [i ->]%IH. by exists (String c i).
Qed.

Lemma match_h1_spec (s rest : string) :
  match_h1 s = Some rest → ∃ m, s = "<h1" +:+ m +:+ rest.
Proof.
  unfold match_h1.
  destruct (JsString.strip_prefix "<h1" s) as [s1|] eqn:H1; [|done]. simpl.
  destruct (tag_rest s1) as [s2|] eqn:H2; [|done]. simpl.
  intros [i ->]%lazy_close_spec.
  apply tag_rest_spec in H2 as [a ->].
  apply strip_prefix_Some in H1 as ->.
  exists (a +:+ ">" +:+ i +:+ "</h1>").
  by rewrite !app_assoc_s.
Qed.

Lemma match_h1_starts (s rest : string) :
  match_h1 s = Some rest → JsString.startsWith s "<h1" = true.
Proof.
  intros [m ->]%match_h1_spec. apply startsWith_spec. by exists (m +:+ rest).
Qed.

Lemma match_h1_None (s : string) :
  JsString.startsWith s "<h1" = false → match_h1 s = None.
Proof.
  intros Hs. destruct (match_h1 s) as [rest|] eqn:Hm; [|done].
  apply match_h1_starts in Hm. congruence.
Qed.

Lemma count_h1_zero_id (s : string) : count_h1 s = 0%nat → removeFirstH1 s = s.
Proof.
  induction s as [|c s IH]; [done|]. cbn [count_h1 removeFirstH1].
  destruct (JsString.startsWith (String c s) "<h1") eqn:Hs; [done|].
  intros Hc. rewrite (match_h1_None _ Hs). f_equal. apply IH. lia.
Qed.

Lemma count_h1_suffix (m rest : string) :
  count_h1 (m +:+ rest) = 0%nat → count_h1 rest = 0%nat.
Proof.
  induction m as [|c m IH]; [done|]. rewrite app_cons. cbn [count_h1].
  intros H. apply IH. lia.
Qed.

Lemma prefix_cons (a b : ascii) (p s : string) :
  String.prefix (String a p) (String b s)
  = if ascii_dec a b then String.prefix p s else false.
Proof. done. Qed.

Lemma startsWith_h1_first (c : ascii) (s : string) :
  c ≠ "<"%char → JsString.startsWith (String c s) "<h1" = false.
Proof.
  intros Hc. unfold JsString.startsWith. rewrite prefix_cons.
  destruct (ascii_dec "<" c) as [<-|]; done.
Qed.

Lemma startsWith_h1_second (a : ascii) (s : string) :
  a ≠ "h"%char → JsString.startsWith (String "<" (String a s)) "<h1" = false.
Proof.
  intros Ha. unfold JsString.startsWith. rewrite !prefix_cons.
  destruct (ascii_dec "<" "<"); [|done].
  destruct (ascii_dec "h" a) as [<-|]; done.
Qed.

Lemma startsWith_h1_third (b : ascii) (s : string) :
  b ≠ "1"%char →
  JsString.startsWith (String "<" (String "h" (String b s))) "<h1" = false.
Proof.
  intros Hb. unfold JsString.startsWith. rewrite !prefix_cons.
  destruct (ascii_dec "<" "<"); [|done].
  destruct (ascii_dec "h" "h"); [|done].
  destruct (ascii_dec "1" b) as [<-|]; done.
Qed.

Lemma removeFirstH1_next (c : ascii) (s : string) :
  c ≠ "<"%char → removeFirstH1 (String c s) = String c (removeFirstH1 s).
Proof.
  intros Hc. cbn [removeFirstH1]. rewrite match_h1_None; [done|].
  by apply startsWith_h1_first.
Qed.

(** With a tag open, two characters of the text survive the stripping. *)
Lemma no_seam (s : string) :
  tags_ok true s = true →
  JsString.startsWith (String "<" s) "<h1" = false →
  JsString.startsWith (String "<" (removeFirstH1 s)) "<h1" = false.
Proof.
  intros Hok Hs.
  destruct s as [|a r]; [done|].
  destruct (decide (a = "<"%char)) as [->|Ha]; [done|].
  rewrite removeFirstH1_next by done.
  destruct (decide (a = "h"%char)) as [->|Hh].
  2:{ by apply startsWith_h1_second. }
  destruct r as [|b t]; [done|].
  destruct (decide (b = "<"%char)) as [->|Hb]; [done|].
  rewrite removeFirstH1_next by done.
  destruct (decide (b = "1"%char)) as [->|H1].
  { assert (JsString.startsWith (String "<" (String "h" (String "1" t))) "<h1"
            = true) by (apply startsWith_spec; by exists t).
    congruence. }
  by apply startsWith_h1_third.
Qed.

Lemma removeFirstH1_idempotent (s : string) (inTag : bool) :
  tags_ok inTag s = true → count_h1 s = 1%nat →
  removeFirstH1 (removeFirstH1 s) = removeFirstH1 s.
Proof.
  revert inTag. induction s as [|c s IH]; intros inTag Hok Hcount; [done|].
  cbn [count_h1] in Hcount.
  destruct (JsString.startsWith (String c s) "<h1") eqn:Hs.
  - assert (Hzero : count_h1 s = 0%nat) by lia.
    cbn [removeFirstH1].
    destruct (match_h1 (String c s)) as [rest|] eqn:Hm.
    + apply match_h1_spec in Hm as [m Hm].
      assert (Hs' : s = ("h1" +:+ m) +:+ rest).
      { rewrite app_assoc_s.
        change ("<h1" +:+ m +:+ rest) with (String "<" ("h1" +:+ m +:+ rest)) in Hm.
        by injection Hm. }
      rewrite Hs' in Hzero. apply count_h1_zero_id.
      by apply count_h1_suffix in Hzero.
    + rewrite (count_h1_zero_id s Hzero).
      cbn [removeFirstH1]. rewrite Hm. by rewrite (count_h1_zero_id s Hzero).
  - assert (Hone : count_h1 s = 1%nat) by lia.
    cbn [removeFirstH1]. rewrite (match_h1_None _ Hs).
    cbn [removeFirstH1 tags_ok] in *.
    assert (Hseam : JsString.startsWith (String c (removeFirstH1 s)) "<h1" = false).
    { destruct (decide (c = "<"%char)) as [->|Hc].
      - apply no_seam; [|done]. simpl in Hok. by apply andb_true_iff in Hok as [_ ?].
      - by apply startsWith_h1_first. }
    rewrite (match_h1_None _ Hseam). f_equal.
    case_bool_decide; [|case_bool_decide].
    + apply andb_true_iff in Hok as [_ Hok]. by apply (IH true).
    + by apply (IH false).
    + by apply (IH inTag).
Qed.

Lemma prefix_nil (s : string) : String.prefix "" s = true.
Proof. by destruct s. Qed.

Lemma prefix_app_long (p a b : string) :
  (String.length p ≤ String.length a)%nat →
  String.prefix p (a +:+ b) = String.prefix p a.
Proof.
  revert a. induction p as [|c p IH]; intros a Hlen.
  - by rewrite !prefix_nil.
  - destruct a as [|d a]; simpl in Hlen; [lia|].
    rewrite app_cons, !prefix_cons. destruct (ascii_dec c d); [|done].
    apply IH. lia.
Qed.

Lemma lazy_close_app (inner post : string) :
  has_line_terminator inner = false →
  JsString.includes (inner +:+ "</h1") "</h1>" = false →
  lazy_close (inner +:+ "</h1>" +:+ post) = Some post.
Proof.
  induction inner as [|c inner IH]; intros Hlt Hinc.
  - done.
  - simpl in Hlt. apply orb_false_iff in Hlt as [Hc Hlt].
    rewrite app_cons in Hinc. cbn [JsString.includes] in Hinc.
    apply orb_false_iff in Hinc as [Hhere Hinc].
    rewrite app_cons. cbn [lazy_close].
    assert (JsString.strip_prefix "</h1>" (String c (inner +:+ "</h1>" +:+ post))
            = None) as ->.
    { destruct (JsString.strip_prefix _ _) as [r|] eqn:Hp; [|done].
      assert (Hpre : String.prefix "</h1>" (String c (inner +:+ "</h1>" +:+ post))
                     = true) by (apply prefix_strip; eauto).
      change (String c (inner +:+ "</h1>" +:+ post))
        with (String c inner +:+ "</h1" +:+ ">" +:+ post) in Hpre.
      rewrite <- (app_assoc_s (String c inner) "</h1" (">" +:+ post)) in Hpre.
      rewrite prefix_app_long in Hpre.
      - unfold JsString.startsWith in Hhere. rewrite app_cons in Hpre. congruence.
      - rewrite length_app_s. simpl. lia. }
    rewrite Hc. by apply IH.
Qed.

Lemma match_h1_app (attrs inner post : string) :
  has_char ">" attrs = false →
  has_line_terminator inner = false →
  JsString.includes (inner +:+ "</h1") "</h1>" = false →
  match_h1 ("<h1" +:+ attrs +:+ ">" +:+ inner +:+ "</h1>" +:+ post) = Some post.
Proof.
  intros Ha Hlt Hinc. unfold match_h1.
  assert (JsString.strip_prefix "<h1"
            ("<h1" +:+ attrs +:+ ">" +:+ inner +:+ "</h1>" +:+ post)
          = Some (attrs +:+ ">" +:+ inner +:+ "</h1>" +:+ post)) as ->
    by by apply strip_prefix_Some.
  simpl. rewrite tag_rest_app by done. simpl. by apply lazy_close_app.
Qed.

Lemma removeFirstH1_first (pre m post : string) :
  count_h1 (pre +:+ "<h") = 0%nat →
  match_h1 m = Some post →
  removeFirstH1 (pre +:+ m) = pre +:+ post.
Proof.
  intros Hpre Hm. induction pre as [|c pre IH].
  - change (removeFirstH1 m = post).
    destruct m as [|c m]; [done|]. cbn [removeFirstH1]. by rewrite Hm.
  - rewrite app_cons in Hpre. cbn [count_h1] in Hpre.
    destruct (JsString.startsWith (String c (pre +:+ "<h")) "<h1") eqn:Hs; [done|].
    rewrite !app_cons. cbn [removeFirstH1].
    rewrite match_h1_None.
    + f_equal. apply IH. lia.
    + apply match_h1_spec in Hm as [m' ->].
      change ("<h1" +:+ m' +:+ post) with ("<h" +:+ "1" +:+ m' +:+ post).
      rewrite <- (app_assoc_s pre "<h" ("1" +:+ m' +:+ post)).
      rewrite <- app_cons. unfold JsString.startsWith.
      rewrite prefix_app_long; [done|].
      simpl. rewrite length_app_s. simpl. lia.
Qed.

(** C9 (as stated). Two texts with exactly one [h1] element on which a
    second stripping removes more than the first: in one, the text around
    the heading closes up into a new heading; in the other a comment holds
    a heading. *)
Lemma removeFirstH1_twice_differs :
  h1_elements false "<h<h1>x</h1>1>y</h1>" = 1%nat
  ∧ removeFirstH1 "<h<h1>x</h1>1>y</h1>" = "<h1>y</h1>"
  ∧ removeFirstH1 (removeFirstH1 "<h<h1>x</h1>1>y</h1>") = ""
  ∧ h1_elements false "<h1>T</h1><!-- <h1>Old</h1> -->" = 1%nat
  ∧ removeFirstH1 "<h1>T</h1><!-- <h1>Old</h1> -->" = "<!-- <h1>Old</h1> -->"
  ∧ removeFirstH1 (removeFirstH1 "<h1>T</h1><!-- <h1>Old</h1> -->") = "<!--  -->".
Proof.
  repeat match goal with |- _ ∧ _ => split end; vm_compute; reflexivity.
Qed.

(** C9 (amended). On markup in which [<h1] occurs exactly once and no [<]
    stands inside a tag, stripping the first heading twice gives what
    stripping it once gives. Stripping removes the first heading only:
    when the first [<h1] of a text opens a heading on one line, the result
    is the text before it followed by the whole text after its [</h1>],
    further headings included. *)
Theorem removeFirstH1_once (html pre attrs inner post : string) :
  (tags_ok false html = true → count_h1 html = 1%nat →
   removeFirstH1 (removeFirstH1 html) = removeFirstH1 html)
  ∧ (count_h1 (pre +:+ "<h") = 0%nat →
     has_char ">" attrs = false →
     has_line_terminator inner = false →
     JsString.includes (inner +:+ "</h1") "</h1>" = false →
     removeFirstH1 (pre +:+ "<h1" +:+ attrs +:+ ">" +:+ inner +:+ "</h1>" +:+ post)
     = pre +:+ post).
Proof.
  split.
  - apply removeFirstH1_idempotent.
  - intros Hpre Ha Hlt Hinc. apply removeFirstH1_first; [done|].
    by apply match_h1_app.
Qed.

Lemma removeFirstH1_once_witness :
  (tags_ok false "<p>a</p><h1 id='t'>Title</h1><h2>b</h2>" = true
   ∧ count_h1 "<p>a</p><h1 id='t'>Title</h1><h2>b</h2>" = 1%nat
   ∧ removeFirstH1 (removeFirstH1 "<p>a</p><h1 id='t'>Title</h1><h2>b</h2>")
     = removeFirstH1 "<p>a</p><h1 id='t'>Title</h1><h2>b</h2>")
  ∧ (count_h1 ("<p>a</p>" +:+ "<h") = 0%nat
     ∧ has_char ">" " id='t'" = false
     ∧ has_line_terminator "A <em>title</em>" = false
     ∧ JsString.includes ("A <em>title</em>" +:+ "</h1") "</h1>" = false
     ∧ removeFirstH1 ("<p>a</p>" +:+ "<h1" +:+ " id='t'" +:+ ">" +:+ "A <em>title</em>"
                      +:+ "</h1>" +:+ "<h1>Second</h1>")
       = "<p>a</p>" +:+ "<h1>Second</h1>").
Proof.
  pose proof (removeFirstH1_once "<p>a</p><h1 id='t'>Title</h1><h2>b</h2>"
                "<p>a</p>" " id='t'" "A <em>title</em>" "<h1>Second</h1>") as [H1 H2].
  split.
  - split; [reflexivity|]. split; [reflexivity|]. apply H1; reflexivity.
  - split; [reflexivity|]. split; [reflexivity|]. split; [reflexivity|].
    split; [reflexivity|]. apply H2; reflexivity.
Defined.

(** ** Sorting *)

Section SortFacts.
Context {A : Type} (compare : A -> A -> option Z).

Lemma insert_perm (x : A) (l : list A) : JsArray.insert compare x l ≡ₚ x :: l.
Proof.
  induction l as [|y l IH]; simpl; [done|].
  destruct (JsArray.before compare x y); [done|].
  rewrite IH. apply Permutation_swap.
Qed.

Lemma sort_perm (l : list A) : JsArray.sort compare l ≡ₚ l.
Proof.
  induction l as [|x l IH]; simpl; [done|]. by rewrite insert_perm, IH.
Qed.

End SortFacts.

Lemma before_numeric (a b : SidebarItem) (x y : Z) :
  order a = JNum x → order b = JNum y →
  JsArray.before compareOrder a b = bool_decide (x ≤ y).
Proof.
  intros Ha Hb. unfold JsArray.before, compareOrder, Js.sub. rewrite Ha, Hb. simpl.
  case_bool_decide; [apply Z.leb_le|apply Z.leb_gt]; lia.
Qed.

Lemma insert_sorted (x : SidebarItem) (l : list SidebarItem) :
  numeric x → Forall numeric l → StronglySorted order_le l →
  StronglySorted order_le (JsArray.insert compareOrder x l).
Proof.
  intros [nx Hx] Hnum Hsorted.
  induction Hsorted as [|y l Hs IH Hall]; simpl.
  - repeat constructor.
  - apply Forall_cons in Hnum as [[ny Hy] Hnum].
    rewrite (before_numeric x y nx ny) by done.
    case_bool_decide as Hle.
    + constructor; [by constructor|].
      constructor; [by exists nx, ny|].
      eapply Forall_impl; [exact Hall|].
      intros z (y' & nz & Hy' & Hz & Hle'). exists nx, nz.
      rewrite Hy in Hy'. injection Hy' as <-. repeat split; [done..|lia].
    + constructor; [by apply IH|].
      rewrite insert_perm. constructor; [|done].
      exists ny, nx. repeat split; [done..|lia].
Qed.

Lemma sort_numeric (l : list SidebarItem) :
  Forall numeric l → Forall numeric (JsArray.sort compareOrder l).
Proof. intros H. by rewrite sort_perm. Qed.

Lemma sort_sorted (l : list SidebarItem) :
  Forall numeric l → StronglySorted order_le (JsArray.sort compareOrder l).
Proof.
  induction 1 as [|x l Hx Hl IH]; simpl; [constructor|].
  apply insert_sorted; [done|by apply sort_numeric|done].
Qed.

Lemma insert_filter (v : jsval) (x : SidebarItem) (l : list SidebarItem) :
  numeric x → Forall numeric l →
  filter (fun i => order i = v) (JsArray.insert compareOrder x l)
  = filter (fun i => order i = v) (x :: l).
Proof.
  intros [nx Hx] Hnum. induction Hnum as [|y l [ny Hy] Hl IH]; simpl; [done|].
  rewrite (before_numeric x y nx ny) by done.
  case_bool_decide as Hle; [done|].
  rewrite filter_cons, IH, !filter_cons.
  destruct (decide (order y = v)) as [Hyv|Hyv]; [|done].
  assert (Hxv : order x ≠ v) by (rewrite Hx, <- Hyv, Hy; intros [= ->]; lia).
  repeat case_decide; done.
Qed.

Lemma sort_filter (v : jsval) (l : list SidebarItem) :
  Forall numeric l →
  filter (fun i => order i = v) (JsArray.sort compareOrder l)
  = filter (fun i => order i = v) l.
Proof.
  induction 1 as [|x l Hx Hl IH]; simpl; [done|].
  rewrite insert_filter by (done || by apply sort_numeric).
  by rewrite !filter_cons, IH.
Qed.

Lemma sort_sorted_stably (l : list SidebarItem) :
  Forall numeric l → sorted_stably (JsArray.sort compareOrder l) l.
Proof.
  intros H. split; [apply sort_perm|]. split; [by apply sort_sorted|].
  intros v. by apply sort_filter.
Qed.

(** ** Object tables *)

Section ObjectFacts.
Context {A : Type}.
Implicit Types (o : JsObject.t A) (k : string) (a : A).

Lemma own_app o k k' a :
  JsObject.own (o ++ [(k, a)]) k'
  = match JsObject.own o k' with
    | Some x => Some x
    | None => if JsString.eqb k k' then Some a else None
    end.
Proof.
  induction o as [|[k0 a0] o IH]; simpl; [done|].
  by destruct (JsString.eqb k0 k').
Qed.

Lemma update_missing o k a : JsObject.own o k = None → JsObject.update o k a = o.
Proof.
  induction o as [|[k0 a0] o IH]; simpl; [done|].
  destruct (JsString.eqb k0 k); [done|]. intros H. by rewrite IH.
Qed.

Lemma update_app o k a b :
  JsObject.own o k = None →
  JsObject.update (o ++ [(k, a)]) k b = o ++ [(k, b)].
Proof.
  induction o as [|[k0 a0] o IH]; simpl.
  - intros _. unfold JsString.eqb. by rewrite bool_decide_eq_true_2.
  - destruct (JsString.eqb k0 k); [done|]. intros H. by rewrite IH.
Qed.

Lemma own_cons o k k' a :
  JsObject.own ((k', a) :: o) k
  = if bool_decide (k' = k) then Some a else JsObject.own o k.
Proof. done. Qed.

Lemma update_cons o k k' a b :
  JsObject.update ((k', a) :: o) k b
  = if bool_decide (k' = k) then (k', b) :: o else (k', a) :: JsObject.update o k b.
Proof. done. Qed.

Lemma own_fmap (G : string → A) (ks : list string) k :
  JsObject.own ((fun key => (key, G key)) <$> ks) k
  = if bool_decide (k ∈ ks) then Some (G k) else None.
Proof.
  induction ks as [|k0 ks IH].
  - rewrite bool_decide_eq_false_2; [done|]. apply not_elem_of_nil.
  - rewrite fmap_cons, own_cons, IH. destruct (decide (k0 = k)) as [->|Hk].
    + rewrite !bool_decide_eq_true_2; [done| |done]. by left.
    + rewrite (bool_decide_eq_false_2 (k0 = k)) by done.
      destruct (decide (k ∈ ks)) as [Hin|Hin].
      * rewrite !bool_decide_eq_true_2; [done| |done]. by right.
      * rewrite !bool_decide_eq_false_2; [done| |done].
        intros [->|?]%elem_of_cons; done.
Qed.

Lemma update_fmap (G : string → A) (ks : list string) k a :
  NoDup ks →
  JsObject.update ((fun key => (key, G key)) <$> ks) k a
  = (fun key => if bool_decide (key = k) then (k, a) else (key, G key)) <$> ks.
Proof.
  induction 1 as [|k0 ks Hk0 Hnd IH]; [done|].
  rewrite !fmap_cons, update_cons, IH. destruct (decide (k0 = k)) as [->|Hk].
  - rewrite !bool_decide_eq_true_2 by done. f_equal.
    apply list_fmap_ext. intros i k' Hk'.
    rewrite bool_decide_eq_false_2; [done|]. intros ->.
    apply Hk0. by eapply list_elem_of_lookup_2.
  - by rewrite !bool_decide_eq_false_2 by done.
Qed.

Lemma entries_plain o :
  Forall (fun p => JsObject.array_index p.1 = None) o → JsObject.entries o = o.
Proof.
  intros H. unfold JsObject.entries.
  assert (JsObject.index_entries o = []) as ->.
  { induction H as [|p o Hp Ho IH]; simpl; [done|]. by rewrite Hp. }
  simpl. induction H as [|p o Hp Ho IH]; simpl; [done|].
  rewrite Hp. rewrite bool_decide_eq_true_2 by done. by f_equal.
Qed.

End ObjectFacts.

(** ** Keys in order of first appearance *)

Lemma first_seen_snoc (l : list string) (k : string) :
  first_seen (l ++ [k])
  = if bool_decide (k ∈ first_seen l) then first_seen l else first_seen l ++ [k].
Proof. unfold first_seen. by rewrite fold_left_app. Qed.

Lemma elem_of_first_seen (l : list string) (k : string) :
  k ∈ first_seen l ↔ k ∈ l.
Proof.
  induction l as [|x l IH] using rev_ind; [done|].
  rewrite first_seen_snoc, elem_of_app, list_elem_of_singleton.
  case_bool_decide as Hx.
  - rewrite IH. split; [by left|]. intros [?| ->]; [done|]. by apply IH.
  - by rewrite elem_of_app, list_elem_of_singleton, IH.
Qed.

Lemma first_seen_NoDup (l : list string) : NoDup (first_seen l).
Proof.
  induction l as [|x l IH] using rev_ind.
  - constructor.
  - rewrite first_seen_snoc. case_bool_decide as Hx; [done|].
    apply NoDup_app. split; [done|]. split; [|apply NoDup_singleton].
    intros y Hy ->%list_elem_of_singleton. done.
Qed.

(** ** Grouping *)

Lemma proto_inherited : "__proto__" ∈ JsObject.inherited_keys.
Proof. apply (bool_decide_unpack _). vm_compute. exact I. Qed.

Lemma root_not_inherited : "_root" ∉ JsObject.inherited_keys.
Proof. apply (bool_decide_unpack _). vm_compute. exact I. Qed.

Lemma addToGroups_add (dir : string) (groups : JsObject.t SidebarGroup)
    (entry : ContentEntry) :
  groupKey dir entry ∉ JsObject.inherited_keys →
  addToGroups dir groups entry
  = Some (add_item (groupKey dir entry)
            (if JsString.eqb (groupKey dir entry) "_root"
             then formatTitle dir else formatTitle (groupKey dir entry))
            (makeItem entry) groups).
Proof.
  intros Hkey. unfold addToGroups, add_item.
  set (key := groupKey dir entry) in *.
  set (title := if JsString.eqb key "_root" then formatTitle dir else formatTitle key).
  assert (Hproto : JsString.eqb key "__proto__" = false).
  { apply bool_decide_eq_false. intros ->. apply Hkey, proto_inherited. }
  assert (Heq : JsString.eqb key key = true) by by apply eqb_spec.
  destruct (JsObject.own groups key) as [g|] eqn:Hown.
  - assert (Hget : JsObject.get groups key = JsObject.Own g)
      by (unfold JsObject.get; by rewrite Hown).
    rewrite Hget. cbn [JsObject.truthy negb]. rewrite Hget.
    unfold JsObject.set. by rewrite Hproto, Hown.
  - assert (Hget : JsObject.get groups key = JsObject.Missing).
    { unfold JsObject.get. rewrite Hown. by rewrite bool_decide_eq_false_2. }
    rewrite Hget. cbn [JsObject.truthy negb].
    assert (Hset : JsObject.set groups key {| group_title := title; items := [] |}
                   = groups ++ [(key, {| group_title := title; items := [] |})]).
    { unfold JsObject.set. by rewrite Hproto, Hown. }
    rewrite Hset.
    assert (Hget' : JsObject.get
                      (groups ++ [(key, {| group_title := title; items := [] |})]) key
                    = JsObject.Own {| group_title := title; items := [] |}).
    { unfold JsObject.get. by rewrite own_app, Hown, Heq. }
    rewrite Hget'. f_equal.
    unfold JsObject.set. rewrite Hproto, own_app, Hown, Heq.
    by rewrite update_app.
Qed.

Lemma items_of_snoc (dir key : string) (l : list ContentEntry) (e : ContentEntry) :
  items_of dir key (l ++ [e])
  = items_of dir key l ++ (if bool_decide (groupKey dir e = key) then [makeItem e] else []).
Proof.
  unfold items_of. rewrite filter_app, fmap_app. f_equal.
  rewrite filter_cons. case_bool_decide.
  - by rewrite decide_True.
  - by rewrite decide_False.
Qed.

Lemma items_of_fresh (dir key : string) (l : list ContentEntry) :
  key ∉ (groupKey dir <$> l) → items_of dir key l = [].
Proof.
  intros Hkey. unfold items_of.
  induction l as [|e l IH]; [done|].
  rewrite filter_cons. rewrite fmap_cons in Hkey.
  apply not_elem_of_cons in Hkey as [Hne Hkey].
  rewrite decide_False by done. by apply IH.
Qed.

Lemma grouped_snoc (dir : string) (l : list ContentEntry) (e : ContentEntry) :
  add_item (groupKey dir e)
    (if JsString.eqb (groupKey dir e) "_root"
     then formatTitle dir else formatTitle (groupKey dir e))
    (makeItem e) (grouped dir l)
  = grouped dir (l ++ [e]).
Proof.
  unfold add_item, grouped.
  rewrite (fmap_app (groupKey dir) l [e]).
  change (groupKey dir <$> [e]) with [groupKey dir e].
  rewrite first_seen_snoc.
  set (key := groupKey dir e).
  set (ks := first_seen (groupKey dir <$> l)).
  rewrite (own_fmap (fun k =>
    {| group_title := if JsString.eqb k "_root" then formatTitle dir else formatTitle k;
       items := items_of dir k l |}) ks key).
  case_bool_decide as Hin.
  - rewrite (update_fmap (fun k =>
      {| group_title := if JsString.eqb k "_root" then formatTitle dir else formatTitle k;
         items := items_of dir k l |}) ks key) by apply first_seen_NoDup.
    apply list_fmap_ext. intros i k Hk. simpl.
    rewrite items_of_snoc. fold key.
    case_bool_decide as Hk'.
    + subst k. by rewrite bool_decide_eq_true_2.
    + rewrite bool_decide_eq_false_2 by done. by rewrite app_nil_r.
  - rewrite fmap_app. simpl. f_equal.
    + apply list_fmap_ext. intros i k Hk. simpl.
      rewrite items_of_snoc. fold key.
      rewrite bool_decide_eq_false_2; [by rewrite app_nil_r|].
      intros Heq. apply Hin. rewrite Heq. by eapply list_elem_of_lookup_2.
    + rewrite items_of_snoc. fold key.
      rewrite bool_decide_eq_true_2 by done.
      rewrite items_of_fresh; [done|]. by rewrite <- elem_of_first_seen.
Qed.

Lemma buildGroups_grouped (dir : string) (done_ rest : list ContentEntry) :
  (∀ e, e ∈ rest → groupKey dir e ∉ JsObject.inherited_keys) →
  buildGroups dir (grouped dir done_) rest = Some (grouped dir (done_ ++ rest)).
Proof.
  revert done_. induction rest as [|e rest IH]; intros done_ Hkeys; simpl.
  - by rewrite app_nil_r.
  - rewrite addToGroups_add by (apply Hkeys; by left). simpl.
    rewrite grouped_snoc, IH.
    + by rewrite <- app_assoc.
    + intros e' He'. apply Hkeys. by right.
Qed.

(** ** Sidebar *)

Lemma groupKey_direct (dir : string) (e : ContentEntry) :
  directory e = dir → groupKey dir e = "_root".
Proof.
  intros H. unfold groupKey.
  assert (JsString.eqb (directory e) dir = true) as -> by by apply eqb_spec.
  done.
Qed.

Lemma makeItem_order_number (e : ContentEntry) (n : Z) :
  metadata e !! "order" = Some (JNum n) → n ≠ 0 → order (makeItem e) = JNum n.
Proof.
  intros H Hn. unfold makeItem, Js.or, Js.get; simpl. rewrite H; simpl.
  by destruct (Z.eqb_spec n 0).
Qed.

Lemma makeItem_order_falsy (e : ContentEntry) :
  Js.truthy (Js.get (metadata e) "order") = false → order (makeItem e) = JNum 999.
Proof. intros H. unfold makeItem, Js.or; simpl. by rewrite H. Qed.

Lemma makeItem_order_absent (e : ContentEntry) :
  metadata e !! "order" = None → order (makeItem e) = JNum 999.
Proof. intros H. apply makeItem_order_falsy. unfold Js.get. by rewrite H. Qed.

Lemma numeric_order_item (e : ContentEntry) : numeric_order e → numeric (makeItem e).
Proof.
  intros [H|[n H]].
  - exists 999. by apply makeItem_order_absent.
  - destruct (decide (n = 0)) as [->|Hn].
    + exists 999. apply makeItem_order_falsy. unfold Js.get. by rewrite H.
    + exists n. by apply makeItem_order_number.
Qed.

Lemma delete_fmap (G : string → SidebarGroup) (ks : list string) (k : string) :
  JsObject.delete ((fun key => (key, G key)) <$> ks) k
  = (fun key => (key, G key)) <$> filter (fun key => key ≠ k) ks.
Proof.
  unfold JsObject.delete. induction ks as [|k0 ks IH]; simpl; [done|].
  rewrite filter_cons. unfold JsString.eqb at 1. case_bool_decide as Hk; simpl.
  - by rewrite decide_False by (by intros ?).
  - rewrite decide_True by done. simpl. by f_equal.
Qed.

(** The value of [sidebarTree] when no group key is inherited. *)
Lemma sidebarTree_shape (all : list ContentEntry) (dir : string) :
  let sel := filter (in_directory dir) all in
  (∀ e, e ∈ sel → groupKey dir e ∉ JsObject.inherited_keys) →
  sidebarTree all dir
  = Some ((Leaf <$> JsArray.sort compareOrder (items_of dir "_root" sel))
          ++ ((fun p : string * SidebarGroup => Group (group_title p.2) (items p.2))
              <$> JsObject.entries
                    ((fun key =>
                        (key,
                         {| group_title := formatTitle key;
                            items := JsArray.sort compareOrder (items_of dir key sel) |}))
                     <$> filter (fun key => key ≠ "_root")
                           (first_seen (groupKey dir <$> sel))))).
Proof.
  intros sel Hkeys. unfold sidebarTree. rewrite filter_under. fold sel.
  pose proof (buildGroups_grouped dir [] sel Hkeys) as Hb.
  change (grouped dir []) with (@nil (string * SidebarGroup)) in Hb.
  rewrite Hb. simpl.
  set (G := fun key =>
    {| group_title := if JsString.eqb key "_root" then formatTitle dir else formatTitle key;
       items := JsArray.sort compareOrder (items_of dir key sel) |}).
  assert (Hmap : JsObject.map_values sortGroup (grouped dir sel)
                 = (fun key => (key, G key)) <$> first_seen (groupKey dir <$> sel)).
  { unfold JsObject.map_values, grouped. rewrite <- list_fmap_compose.
    by apply list_fmap_ext. }
  rewrite Hmap. f_equal. f_equal.
  - unfold JsObject.get. rewrite own_fmap. case_bool_decide as Hin; [done|].
    rewrite bool_decide_eq_false_2 by apply root_not_inherited.
    rewrite items_of_fresh; [done|]. by rewrite <- elem_of_first_seen.
  - rewrite delete_fmap. f_equal. f_equal.
    apply list_fmap_ext. intros i k Hk.
    apply list_elem_of_lookup_2, list_elem_of_filter in Hk as [Hk _].
    unfold G. f_equal. f_equal.
    destruct (JsString.eqb k "_root") eqn:He; [by apply eqb_spec in He|done].
Qed.

Lemma sorted_before (l : list SidebarItem) (x y : SidebarItem) (nx ny : Z) :
  StronglySorted order_le l → x ∈ l → y ∈ l →
  order x = JNum nx → order y = JNum ny → nx < ny →
  ∃ l1 l2 l3, l = l1 ++ x :: l2 ++ y :: l3.
Proof.
  intros Hs Hx Hy Hnx Hny Hlt.
  apply list_elem_of_split in Hy as (a & b & ->).
  apply elem_of_app in Hx as [Hx|Hx].
  - apply list_elem_of_split in Hx as (a1 & a2 & ->).
    exists a1, a2, b. by rewrite <- app_assoc.
  - apply StronglySorted_app_1_r, StronglySorted_cons in Hs as [Hall _].
    apply elem_of_cons in Hx as [->|Hx]; [rewrite Hnx in Hny; injection Hny; lia|].
    rewrite Forall_forall in Hall. destruct (Hall x Hx) as (p & q & Hp & Hq & Hpq).
    rewrite Hny in Hp. rewrite Hnx in Hq. injection Hp as <-. injection Hq as <-. lia.
Qed.

Lemma getSidebarTree_fst (env : Env) (dir : string) (st : Store) :
  (getSidebarTree env dir st).1 = sidebarTree (getAllContent env st).1 dir.
Proof. unfold getSidebarTree. by destruct (getAllContent env st). Qed.

(** C7 (as stated). In [docs], the folders [10] and [9] are met in this
    order by the scan, yet the group of [9] comes before the group of
    [10]: the table of groups lists array-index keys first, in ascending
    numeric order. *)
Lemma sidebar_groups_not_in_first_met_order :
  first_seen (groupKey "docs" <$> (getAllContent demo_env (cold numbered_chapters)).1)
  = ["10"; "9"]
  ∧ (getSidebarTree demo_env "docs" (cold numbered_chapters)).1
    = Some [Group "9" [{| item_title := JStr "Y"; item_url := "/docs/9/y";
                          order := JNum 999 |}];
            Group "10" [{| item_title := JStr "X"; item_url := "/docs/10/x";
                           order := JNum 999 |}]].
Proof. split; vm_compute; reflexivity. Qed.

(** C7 (amended). Let the selected entries have a numeric front-matter
    order or none, and group keys that are neither array indices nor names
    of inherited object members. Then the sidebar is the leaves followed
    by the groups. The leaves are the items of the entries whose group key
    is the root sentinel, as are all entries located directly in the
    directory, sorted by ascending order with equal orders kept in scan
    order; the order of a leaf is the non-zero front-matter number, and 999
    when the front matter gives none. The groups are those of the other
    keys in the order in which the keys are first met, each titled by its
    formatted key and holding its items sorted in the same way. *)
Theorem sidebar_tree_order (env : Env) (dir : string) (st : Store) :
  let sel := filter (in_directory dir) (getAllContent env st).1 in
  let subdirs :=
    filter (fun key => key ≠ "_root") (first_seen (groupKey dir <$> sel)) in
  (∀ e, e ∈ sel → numeric_order e) →
  (∀ e, e ∈ sel → plain_key (groupKey dir e)) →
  ∃ leaves children,
    (getSidebarTree env dir st).1
    = Some ((Leaf <$> leaves)
            ++ ((fun key => Group (formatTitle key) (children key)) <$> subdirs))
    ∧ sorted_stably leaves (items_of dir "_root" sel)
    ∧ (∀ key, sorted_stably (children key) (items_of dir key sel))
    ∧ (∀ e, directory e = dir → groupKey dir e = "_root")
    ∧ (∀ e n, metadata e !! "order" = Some (JNum n) → n ≠ 0 →
              order (makeItem e) = JNum n)
    ∧ (∀ e, metadata e !! "order" = None → order (makeItem e) = JNum 999).
Proof.
  intros sel subdirs Hnum Hplain.
  assert (Hitems : ∀ key, Forall numeric (items_of dir key sel)).
  { intros key. unfold items_of. rewrite Forall_fmap, Forall_forall.
    intros e [_ He]%list_elem_of_filter. by apply numeric_order_item, Hnum. }
  exists (JsArray.sort compareOrder (items_of dir "_root" sel)),
         (fun key => JsArray.sort compareOrder (items_of dir key sel)).
  split; [|split; [|split; [|split; [|split]]]].
  - rewrite getSidebarTree_fst, sidebarTree_shape.
    2:{ intros e He. by destruct (Hplain e He). }
    fold sel. fold subdirs. f_equal. f_equal.
    rewrite entries_plain.
    + rewrite <- list_fmap_compose. by apply list_fmap_ext.
    + rewrite Forall_fmap, Forall_forall. intros key Hkey. simpl.
      apply list_elem_of_filter in Hkey as [_ Hkey].
      apply elem_of_first_seen, list_elem_of_fmap in Hkey as (e & -> & He).
      by destruct (Hplain e He).
  - by apply sort_sorted_stably.
  - intros key. by apply sort_sorted_stably.
  - apply groupKey_direct.
  - apply makeItem_order_number.
  - apply makeItem_order_absent.
Qed.

Lemma sidebar_tree_order_witness :
  (∀ e, e ∈ filter (in_directory "docs")
               (getAllContent demo_env (cold ordered_pages)).1 → numeric_order e)
  ∧ (∀ e, e ∈ filter (in_directory "docs")
                 (getAllContent demo_env (cold ordered_pages)).1 →
          plain_key (groupKey "docs" e))
  ∧ ∃ leaves children,
      (getSidebarTree demo_env "docs" (cold ordered_pages)).1
      = Some ((Leaf <$> leaves)
              ++ ((fun key => Group (formatTitle key) (children key))
                  <$> ["guide"; "api"]))
      ∧ sorted_stably leaves
          (items_of "docs" "_root"
             (filter (in_directory "docs")
                (getAllContent demo_env (cold ordered_pages)).1)).
Proof.
  assert (H1 : ∀ e, e ∈ filter (in_directory "docs")
                        (getAllContent demo_env (cold ordered_pages)).1 →
                    numeric_order e).
  { apply Forall_forall.
    set (l := filter _ _). vm_compute in l. subst l.
    repeat (apply Forall_cons; split;
            [first [left; reflexivity | right; eexists; reflexivity]|]).
    apply Forall_nil. done. }
  assert (H2 : ∀ e, e ∈ filter (in_directory "docs")
                        (getAllContent demo_env (cold ordered_pages)).1 →
                    plain_key (groupKey "docs" e)).
  { apply Forall_forall.
    set (l := filter _ _). vm_compute in l. subst l.
    repeat (apply Forall_cons; split;
            [split; [apply (bool_decide_unpack _); vm_compute; exact I
                    |vm_compute; reflexivity]|]).
    apply Forall_nil. done. }
  split; [exact H1|]. split; [exact H2|].
  destruct (sidebar_tree_order demo_env "docs" (cold ordered_pages) H1 H2)
    as (leaves & children & Heq & Hl & _).
  exists leaves, children. split; [exact Heq|exact Hl].
Defined.

(** ** Falsy order values *)

(** C10 (as stated). In [docs], [a.md] has order 0 and [b.md] has order
    1000: the leaf of [a.md] receives 999 and comes before the leaf of
    [b.md], whose explicit order is positive. *)
Lemma zero_order_before_larger_order :
  (getSidebarTree demo_env "docs" (cold zero_and_thousand)).1
  = Some [Leaf {| item_title := JStr "A"; item_url := "/docs/a"; order := JNum 999 |};
          Leaf {| item_title := JStr "B"; item_url := "/docs/b"; order := JNum 1000 |}].
Proof. vm_compute; reflexivity. Qed.

(** C10 (amended). A leaf whose front-matter order is falsy (0, the empty
    string, [null], [false]) receives the order 999, as a leaf without
    order does. When no entry of the directory is grouped under the name
    of an inherited object member (so that the call returns) and every
    leaf of the root group has a number as order after the default is
    applied (its front-matter order is a number, falsy or absent), such a
    leaf of the root group comes, in the sidebar, after every leaf of the
    root group whose explicit order lies strictly between 0 and 999. *)
Theorem falsy_order_sorts_as_default (env : Env) (dir : string) (st : Store)
    (e1 e2 : ContentEntry) (n : Z) :
  let sel := filter (in_directory dir) (getAllContent env st).1 in
  (∀ e, e ∈ sel → groupKey dir e ∉ JsObject.inherited_keys) →
  (∀ e, e ∈ sel → groupKey dir e = "_root" → numeric (makeItem e)) →
  e1 ∈ sel → groupKey dir e1 = "_root" →
  e2 ∈ sel → groupKey dir e2 = "_root" →
  Js.truthy (Js.get (metadata e1) "order") = false →
  metadata e2 !! "order" = Some (JNum n) →
  0 < n < 999 →
  order (makeItem e1) = JNum 999
  ∧ (∀ e, metadata e !! "order" = None → order (makeItem e) = JNum 999)
  ∧ ∃ l1 l2 l3,
      (getSidebarTree env dir st).1
      = Some (l1 ++ Leaf (makeItem e2) :: l2 ++ Leaf (makeItem e1) :: l3).
Proof.
  intros sel Hkeys Hnum He1 Hk1 He2 Hk2 Hfalsy Hn Hrange.
  split; [by apply makeItem_order_falsy|].
  split; [apply makeItem_order_absent|].
  rewrite getSidebarTree_fst, sidebarTree_shape by done. fold sel.
  set (groups := (fun p : string * SidebarGroup => _) <$> _).
  assert (Hroot : Forall numeric (items_of dir "_root" sel)).
  { unfold items_of. rewrite Forall_fmap, Forall_forall.
    intros e [Hk He]%list_elem_of_filter. by apply Hnum. }
  assert (Hin : ∀ e, e ∈ sel → groupKey dir e = "_root" →
                makeItem e ∈ JsArray.sort compareOrder (items_of dir "_root" sel)).
  { intros e He Hk. rewrite sort_perm. unfold items_of.
    apply list_elem_of_fmap. exists e. split; [done|].
    by apply list_elem_of_filter. }
  destruct (sorted_before _ (makeItem e2) (makeItem e1) n 999
              (sort_sorted _ Hroot) (Hin e2 He2 Hk2) (Hin e1 He1 Hk1))
    as (l1 & l2 & l3 & Hl).
  - apply makeItem_order_number; [done|lia].
  - by apply makeItem_order_falsy.
  - lia.
  - exists (Leaf <$> l1), (Leaf <$> l2), ((Leaf <$> l3) ++ groups).
    rewrite Hl. rewrite !fmap_app, !fmap_cons, !fmap_app, !fmap_cons.
    f_equal. rewrite <- !app_assoc. simpl. f_equal. f_equal.
    by rewrite <- app_assoc.
Qed.

Lemma falsy_order_sorts_as_default_witness :
  let e1 := makeEntry demo_env "docs" "a.md" (list_to_map [("order", JNum 0)]) "" in
  let e2 := makeEntry demo_env "docs" "b.md" (list_to_map [("order", JNum 1)]) "" in
  e1 ∈ filter (in_directory "docs") (getAllContent demo_env (cold zero_and_one)).1
  ∧ e2 ∈ filter (in_directory "docs") (getAllContent demo_env (cold zero_and_one)).1
  ∧ Js.truthy (Js.get (metadata e1) "order") = false
  ∧ metadata e2 !! "order" = Some (JNum 1)
  ∧ order (makeItem e1) = JNum 999
  ∧ ∃ l1 l2 l3,
      (getSidebarTree demo_env "docs" (cold zero_and_one)).1
      = Some (l1 ++ Leaf (makeItem e2) :: l2 ++ Leaf (makeItem e1) :: l3).
Proof.
  intros e1 e2.
  assert (H1 : e1 ∈ filter (in_directory "docs")
                      (getAllContent demo_env (cold zero_and_one)).1).
  { set (l := filter _ _). vm_compute in l. subst l. apply list_elem_of_here. }
  assert (H2 : e2 ∈ filter (in_directory "docs")
                      (getAllContent demo_env (cold zero_and_one)).1).
  { set (l := filter _ _). vm_compute in l. subst l.
    apply list_elem_of_further, list_elem_of_here. }
  assert (Hkeys : ∀ e, e ∈ filter (in_directory "docs")
                           (getAllContent demo_env (cold zero_and_one)).1 →
                       groupKey "docs" e ∉ JsObject.inherited_keys).
  { apply Forall_forall.
    set (l := filter _ _). vm_compute in l. subst l.
    repeat (apply Forall_cons; split;
            [apply (bool_decide_unpack _); vm_compute; exact I|]).
    apply Forall_nil. done. }
  assert (Hnum : ∀ e, e ∈ filter (in_directory "docs")
                          (getAllContent demo_env (cold zero_and_one)).1 →
                      groupKey "docs" e = "_root" → numeric (makeItem e)).
  { apply (proj1 (Forall_forall
             (fun e => groupKey "docs" e = "_root" → numeric (makeItem e)) _)).
    set (l := filter _ _). vm_compute in l. subst l.
    repeat (apply Forall_cons; split; [intros _; eexists; reflexivity|]).
    apply Forall_nil. done. }
  split; [exact H1|]. split; [exact H2|].
  split; [reflexivity|]. split; [reflexivity|].
  destruct (falsy_order_sorts_as_default demo_env "docs" (cold zero_and_one)
              e1 e2 1 Hkeys Hnum H1 eq_refl H2 eq_refl eq_refl eq_refl)
    as (Ho & _ & Hex); [lia|].
  split; [exact Ho|exact Hex].
Defined.

(** * Further properties of the content processor *)

(** ** Truncation *)

Lemma substring_app_exact (a b : string) :
  String.substring 0 (String.length a) (a +:+ b) = a.
Proof.
  induction a as [|c a IH]; simpl.
  - by destruct b.
  - by rewrite IH.
Qed.

Lemma substring_split (k : nat) (s : string) :
  (k ≤ String.length s)%nat →
  ∃ rest, s = String.substring 0 k s +:+ rest
          ∧ String.length (String.substring 0 k s) = k.
Proof.
  revert s. induction k as [|k IH]; intros s Hk.
  - exists s. by destruct s.
  - destruct s as [|c s]; simpl in Hk; [lia|].
    destruct (IH s) as (rest & Hs & Hlen); [lia|].
    exists rest. cbn [String.substring String.length]. rewrite Hlen.
    split; [|done]. rewrite app_cons. by f_equal.
Qed.

(** Truncation keeps a text that fits, and otherwise returns its first
    [maxLength] characters (none for a negative limit) followed by an
    ellipsis: the result is at most three characters longer than a
    non-negative limit, and truncating the result again changes nothing. *)
Theorem truncateContent_spec (content : string) (maxLength : Z) :
  let k := Z.to_nat maxLength in
  (Z.of_nat (String.length content) ≤ maxLength →
   truncateContent content maxLength = content)
  ∧ (maxLength < Z.of_nat (String.length content) →
     ∃ kept dropped,
       content = kept +:+ dropped ∧ String.length kept = k
       ∧ (0 ≤ maxLength → dropped ≠ "")
       ∧ truncateContent content maxLength = kept +:+ "...")
  ∧ (0 ≤ maxLength →
     Z.of_nat (String.length (truncateContent content maxLength)) ≤ maxLength + 3)
  ∧ truncateContent (truncateContent content maxLength) maxLength
    = truncateContent content maxLength.
Proof.
  intros k. unfold truncateContent.
  destruct (Z.leb_spec (Z.of_nat (String.length content)) maxLength) as [Hle|Hgt].
  - repeat split; try lia; try done.
    apply Z.leb_le in Hle. by rewrite Hle.
  - destruct (substring_split k content) as (dropped & Hc & Hk); [lia|].
    fold k. set (kept := String.substring 0 k content) in *.
    assert (Hlen : String.length (kept +:+ "...") = (k + 3)%nat)
      by (rewrite length_app_s, Hk; done).
    repeat split; try lia.
    + intros _. exists kept, dropped. repeat split; try done.
      intros Hpos ->.
      assert (String.length content = k) by (rewrite Hc, length_app_s, Hk; simpl; lia).
      lia.
    + rewrite Hlen. assert ((Z.of_nat (k + 3) <=? maxLength) = false) as ->
        by (apply Z.leb_gt; lia).
      rewrite <- Hk at 1. by rewrite substring_app_exact.
Qed.

Lemma truncateContent_spec_witness :
  (12 < Z.of_nat (String.length "A long sentence to cut.")
   ∧ 0 ≤ 12
   ∧ truncateContent "A long sentence to cut." 12 = "A long sente...")
  ∧ (Z.of_nat (String.length "short") ≤ 200
     ∧ truncateContent "short" 200 = "short").
Proof.
  destruct (truncateContent_spec "A long sentence to cut." 12) as (_ & H2 & _).
  destruct (truncateContent_spec "short" 200) as (H1 & _).
  split.
  - split; [reflexivity|]. split; [lia|]. reflexivity.
  - split; [vm_compute; discriminate|]. apply H1. vm_compute; discriminate.
Defined.

(** ** Title formatter *)

Lemma split_cons (sep c : ascii) (s : string) :
  JsString.split sep (String c s)
  = if bool_decide (c = sep) then "" :: JsString.split sep s
    else match JsString.split sep s with
         | w :: ws => String c w :: ws
         | [] => [String c ""]
         end.
Proof. done. Qed.

Lemma split_not_nil (sep : ascii) (s : string) : JsString.split sep s ≠ [].
Proof.
  induction s as [|c s IH]; [done|]. rewrite split_cons.
  case_bool_decide; [done|]. by destruct (JsString.split sep s).
Qed.

Lemma join_cons (sep w : string) (ws : list string) :
  ws ≠ [] → JsString.join sep (w :: ws) = w +:+ sep +:+ JsString.join sep ws.
Proof. by destruct ws. Qed.

Lemma toUpperCase_char_not_hyphen (c : ascii) :
  c ≠ "-"%char → JsString.toUpperCase_char c ≠ "-"%char.
Proof.
  destruct c as [[] [] [] [] [] [] [] []]; intros H; vm_compute; congruence.
Qed.

Lemma has_char_app (c : ascii) (a b : string) :
  has_char c (a +:+ b) = has_char c a || has_char c b.
Proof.
  induction a as [|d a IH]; [done|]. rewrite app_cons. simpl.
  by rewrite IH, orb_assoc.
Qed.

Lemma capitalize_length (w : string) :
  String.length (capitalize w) = String.length w.
Proof. by destruct w. Qed.

Lemma capitalize_no_hyphen (w : string) :
  has_char "-" w = false → has_char "-" (capitalize w) = false.
Proof.
  destruct w as [|c w]; [done|]. simpl.
  intros [Hc Hw]%orb_false_iff. apply orb_false_iff. split; [|done].
  apply bool_decide_eq_false, toUpperCase_char_not_hyphen.
  by apply bool_decide_eq_false in Hc.
Qed.

Lemma join_length_fmap (f : string → string) (l : list string) :
  (∀ w, String.length (f w) = String.length w) →
  String.length (JsString.join " " (f <$> l)) = String.length (JsString.join " " l).
Proof.
  intros Hf. induction l as [|w ws IH]; [done|].
  destruct ws as [|w' ws]; [apply Hf|].
  rewrite fmap_cons, !join_cons by done.
  rewrite !length_app_s, Hf. by rewrite IH.
Qed.

Lemma split_join_length (s : string) :
  String.length (JsString.join " " (JsString.split "-" s)) = String.length s.
Proof.
  induction s as [|c s IH]; [done|]. rewrite split_cons.
  pose proof (split_not_nil "-" s) as Hne.
  case_bool_decide.
  - rewrite join_cons, !length_app_s, IH by done. done.
  - destruct (JsString.split "-" s) as [|w ws]; [done|].
    destruct ws as [|w' ws].
    + cbn [JsString.join] in *. cbn [String.length]. by rewrite IH.
    + rewrite join_cons in * by done. rewrite app_cons. cbn [String.length].
      by rewrite IH.
Qed.

Lemma split_no_sep (s : string) :
  Forall (fun w => has_char "-" w = false) (JsString.split "-" s).
Proof.
  induction s as [|c s IH]; [by repeat constructor|]. rewrite split_cons.
  case_bool_decide as Hc; [by constructor|].
  destruct (JsString.split "-" s) as [|w ws].
  { repeat constructor. simpl. by rewrite bool_decide_eq_false_2. }
  apply Forall_cons in IH as [Hw Hws]. constructor; [|done].
  simpl. rewrite Hw. by rewrite bool_decide_eq_false_2.
Qed.

Lemma join_no_hyphen (l : list string) :
  Forall (fun w => has_char "-" w = false) l →
  has_char "-" (JsString.join " " l) = false.
Proof.
  induction 1 as [|w ws Hw Hws IH]; [done|].
  destruct ws as [|w' ws]; [done|].
  rewrite join_cons by done. rewrite !has_char_app, Hw, IH. done.
Qed.

Lemma toUpperCase_char_ascii (c : ascii) :
  (Ascii.nat_of_ascii c <? 128)%nat = true →
  (Ascii.nat_of_ascii (JsString.toUpperCase_char c) <? 128)%nat = true.
Proof.
  destruct c as [[] [] [] [] [] [] [] []]; intros H; vm_compute in H |- *;
    congruence.
Qed.

Lemma ascii_text_app (a b : string) :
  ascii_text (a +:+ b) = ascii_text a && ascii_text b.
Proof.
  induction a as [|c a IH]; [done|]. rewrite app_cons. cbn [ascii_text].
  by rewrite IH, andb_assoc.
Qed.

Lemma ascii_text_split (sep : ascii) (s : string) :
  ascii_text s = true →
  Forall (fun w => ascii_text w = true) (JsString.split sep s).
Proof.
  induction s as [|c s IH]; [by repeat constructor|].
  cbn [ascii_text]. intros [Hc Hs]%andb_true_iff. rewrite split_cons.
  specialize (IH Hs). case_bool_decide; [by constructor|].
  destruct (JsString.split sep s) as [|w ws].
  { repeat constructor. cbn [ascii_text]. by rewrite Hc. }
  apply Forall_cons in IH as [Hw Hws]. constructor; [|done].
  cbn [ascii_text]. by rewrite Hc, Hw.
Qed.

Lemma ascii_text_join (l : list string) :
  Forall (fun w => ascii_text w = true) l →
  ascii_text (JsString.join " " l) = true.
Proof.
  induction 1 as [|w ws Hw Hws IH]; [done|].
  destruct ws as [|w' ws]; [done|].
  rewrite join_cons by done. rewrite !ascii_text_app, Hw, IH. done.
Qed.

Lemma capitalize_ascii (w : string) :
  ascii_text w = true → ascii_text (capitalize w) = true.
Proof.
  destruct w as [|c w]; [done|]. cbn [capitalize ascii_text].
  intros [Hc Hw]%andb_true_iff. by rewrite toUpperCase_char_ascii, Hw.
Qed.

(** X2. For a slug of ASCII characters, the formatted title is ASCII text
    of the length of the slug and holds no hyphen; it is empty for the
    empty slug only. The slug [my-first-post] gives [My First Post]. *)
Theorem formatTitle_shape (slug : string) :
  ascii_text slug = true →
  ascii_text (formatTitle slug) = true
  ∧ String.length (formatTitle slug) = String.length slug
  ∧ has_char "-" (formatTitle slug) = false
  ∧ (formatTitle slug = "" ↔ slug = "")
  ∧ formatTitle "my-first-post" = "My First Post".
Proof.
  intros Hascii.
  assert (Hlen : String.length (formatTitle slug) = String.length slug).
  { unfold formatTitle.
    rewrite (join_length_fmap capitalize) by apply capitalize_length.
    apply split_join_length. }
  repeat match goal with |- _ ∧ _ => split end.
  - unfold formatTitle. apply ascii_text_join.
    rewrite Forall_fmap. eapply Forall_impl; [by apply ascii_text_split|].
    intros w Hw. by apply capitalize_ascii.
  - done.
  - unfold formatTitle. apply join_no_hyphen.
    rewrite Forall_fmap. eapply Forall_impl; [apply split_no_sep|].
    intros w Hw. by apply capitalize_no_hyphen.
  - split; [|by intros ->].
    intros H. rewrite H in Hlen. by destruct slug.
  - vm_compute. reflexivity.
Qed.

Lemma formatTitle_shape_witness :
  ascii_text "getting-started" = true
  ∧ formatTitle "getting-started" = "Getting Started"
  ∧ String.length (formatTitle "getting-started") = String.length "getting-started".
Proof.
  split; [reflexivity|].
  split; [reflexivity|].
  apply (formatTitle_shape "getting-started"). reflexivity.
Defined.

(** ** Cache in development mode *)

(** In development mode every call walks the content folder as it is at
    that moment and caches nothing: a cache left warm is dropped by the
    call, and whatever calls and edits follow, the cache stays cold and
    each further call is one more walk. *)
Theorem getAllContent_development (env : Env) (st : Store) (acts : list action) :
  isDev env = true →
  let first := getAllContent env st in
  first.1 = (scanContentDirectory env st).1
  ∧ cachedContent first.2 = None
  ∧ scans first.2 = S (scans st)
  ∧ disk first.2 = disk st
  ∧ cachedContent (run env acts first.2).2 = None
  ∧ scans (run env acts first.2).2
    = (scans first.2 + length (List.filter is_call acts))%nat.
Proof.
  intros Hdev first.
  assert (Hcall : ∀ s, getAllContent env s
                       = ((scanContentDirectory env s).1,
                          {| disk := disk s; cachedContent := None;
                             scans := S (scans s) |})).
  { intros s. unfold getAllContent. by rewrite Hdev. }
  assert (Hrun : ∀ s, cachedContent s = None →
            cachedContent (run env acts s).2 = None
            ∧ scans (run env acts s).2
              = (scans s + length (List.filter is_call acts))%nat).
  { induction acts as [|[|d] acts IH]; intros s Hs; simpl.
    - split; [done|lia].
    - rewrite Hcall.
      destruct (IH {| disk := disk s; cachedContent := None; scans := S (scans s) |}
                  eq_refl) as [Hc Hn].
      destruct (run env acts _) as [rs s']; simpl in *. split; [done|lia].
    - by apply (IH (setDisk d s)). }
  unfold first. rewrite Hcall. simpl.
  destruct (Hrun {| disk := disk st; cachedContent := None; scans := S (scans st) |}
              eq_refl) as [Hc Hn].
  repeat split; done.
Qed.

Lemma getAllContent_development_witness :
  isDev dev_env = true
  ∧ cachedContent
      (getAllContent dev_env
         {| disk := Some [("a.md", page [])]; cachedContent := Some []; scans := 0 |}).2
    = None.
Proof.
  split; [reflexivity|].
  apply (getAllContent_development dev_env
           {| disk := Some [("a.md", page [])]; cachedContent := Some []; scans := 0 |}
           []).
  reflexivity.
Defined.

(** ** Lookup by url *)

Lemma endsWith_refl (s : string) : JsString.endsWith s s = true.
Proof.
  destruct s; cbn [JsString.endsWith];
    by rewrite (proj2 (eqb_spec _ _) eq_refl).
Qed.

Lemma endsWith_app_self (a b : string) : JsString.endsWith (a +:+ b) b = true.
Proof.
  induction a as [|c a IH].
  - apply endsWith_refl.
  - rewrite app_cons. cbn [JsString.endsWith]. rewrite IH. apply orb_true_r.
Qed.

Lemma slice_end_app (a b : string) :
  JsString.slice_end (a +:+ b) (String.length b) = a.
Proof.
  unfold JsString.slice_end. rewrite length_app_s.
  replace (String.length a + String.length b - String.length b)%nat
    with (String.length a) by lia.
  apply substring_app_exact.
Qed.

Lemma trimSlash_app (u : string) : trimSlash (u +:+ "/") = u.
Proof.
  unfold trimSlash. rewrite endsWith_app_self. apply (slice_end_app u "/").
Qed.

Lemma find_first {A} (f : A → bool) (l : list A) (x : A) :
  List.find f l = Some x →
  ∃ before after, l = before ++ x :: after ∧ f x = true
                  ∧ ∀ y, y ∈ before → f y = false.
Proof.
  induction l as [|a l IH]; simpl; [done|].
  destruct (f a) eqn:Hfa.
  - intros [= ->]. exists [], l. repeat split; [done|]. by intros y ?%elem_of_nil.
  - intros (before & after & -> & Hx & Hb)%IH.
    exists (a :: before), after. repeat split; [done|].
    intros y [->|Hy]%elem_of_cons; [done|by apply Hb].
Qed.

Lemma find_nothing {A} (f : A → bool) (l : list A) :
  List.find f l = None ↔ ∀ y, y ∈ l → f y = false.
Proof.
  induction l as [|a l IH]; simpl.
  - split; [by intros _ y ?%elem_of_nil|done].
  - destruct (f a) eqn:Hfa.
    + split; [done|]. intros H. rewrite H in Hfa; [done|by left].
    + rewrite IH. split.
      * intros H y [->|Hy]%elem_of_cons; [done|by apply H].
      * intros H y Hy. apply H. by right.
Qed.

(** The lookup ignores one trailing slash, in the query and in the urls of
    the entries alike. It returns the first entry, in scan order, whose url
    agrees with the query in that sense, and nothing exactly when no entry
    does; the store is left as [getAllContent] leaves it. *)
Theorem getContentByUrl_first_match (env : Env) (u : string) (st : Store) :
  let all := (getAllContent env st).1 in
  (JsString.endsWith u "/" = false →
   getContentByUrl env (u +:+ "/") st = getContentByUrl env u st)
  ∧ (∀ e, (getContentByUrl env u st).1 = Some e →
       ∃ before after,
         all = before ++ e :: after
         ∧ trimSlash (url e) = trimSlash u
         ∧ ∀ e', e' ∈ before → trimSlash (url e') ≠ trimSlash u)
  ∧ ((getContentByUrl env u st).1 = None ↔
     ∀ e, e ∈ all → trimSlash (url e) ≠ trimSlash u)
  ∧ (getContentByUrl env u st).2 = (getAllContent env st).2.
Proof.
  intros all. unfold getContentByUrl, all.
  destruct (getAllContent env st) as [content st']. simpl.
  split; [|split; [|split]].
  - intros Hu. rewrite trimSlash_app. unfold trimSlash at 3. by rewrite Hu.
  - intros e (before & after & -> & He & Hb)%find_first.
    exists before, after. split; [done|]. split; [by apply eqb_spec|].
    intros e' He' Heq. apply Hb in He'. apply eqb_spec in Heq. congruence.
  - rewrite find_nothing. split.
    + intros H e He Heq. apply H in He. apply eqb_spec in Heq. congruence.
    + intros H e He. destruct (JsString.eqb _ _) eqn:Heq; [|done].
      apply eqb_spec in Heq. by apply H in He.
  - done.
Qed.

Lemma getContentByUrl_first_match_witness :
  JsString.endsWith "/blog/a" "/" = false
  ∧ getContentByUrl demo_env ("/blog/a" +:+ "/")
      (cold [("blog", Dir [("a.md", page [])])])
    = getContentByUrl demo_env "/blog/a" (cold [("blog", Dir [("a.md", page [])])])
  ∧ url <$> (getContentByUrl demo_env "/blog/a/"
               (cold [("blog", Dir [("a.md", page [])])])).1
    = Some "/blog/a".
Proof.
  split; [reflexivity|]. split.
  - apply (getContentByUrl_first_match demo_env "/blog/a"
             (cold [("blog", Dir [("a.md", page [])])])).
    reflexivity.
  - vm_compute. reflexivity.
Defined.

(** ** Sidebar: folders named like inherited object members *)

Lemma addToGroups_inherited (dir : string) (groups : JsObject.t SidebarGroup)
    (entry : ContentEntry) :
  JsObject.own groups (groupKey dir entry) = None →
  groupKey dir entry ∈ JsObject.inherited_keys →
  addToGroups dir groups entry = None.
Proof.
  intros Hown Hkey. unfold addToGroups.
  assert (Hget : JsObject.get groups (groupKey dir entry) = JsObject.Inherited).
  { unfold JsObject.get. rewrite Hown. by rewrite bool_decide_eq_true_2. }
  rewrite Hget. cbn [JsObject.truthy negb]. by rewrite Hget.
Qed.

Lemma own_grouped_fresh (dir : string) (l : list ContentEntry) (key : string) :
  key ∉ (groupKey dir <$> l) → JsObject.own (grouped dir l) key = None.
Proof.
  intros Hkey. unfold grouped.
  rewrite (own_fmap (fun k =>
    {| group_title := if JsString.eqb k "_root" then formatTitle dir else formatTitle k;
       items := items_of dir k l |})).
  rewrite bool_decide_eq_false_2; [done|]. by rewrite elem_of_first_seen.
Qed.

Lemma buildGroups_throws (dir : string) (done_ rest : list ContentEntry) :
  (∀ e, e ∈ done_ → groupKey dir e ∉ JsObject.inherited_keys) →
  (∃ e, e ∈ rest ∧ groupKey dir e ∈ JsObject.inherited_keys) →
  buildGroups dir (grouped dir done_) rest = None.
Proof.
  revert done_. induction rest as [|e rest IH]; intros done_ Hdone [bad [Hin Hbad]].
  - by apply elem_of_nil in Hin.
  - simpl. destruct (decide (groupKey dir e ∈ JsObject.inherited_keys)) as [He|He].
    + rewrite addToGroups_inherited; [done| |done].
      apply own_grouped_fresh. intros (e' & Heq & He')%list_elem_of_fmap.
      apply (Hdone e' He'). by rewrite <- Heq.
    + rewrite addToGroups_add by done. simpl. rewrite grouped_snoc.
      apply IH.
      * intros e' [He'| ->%list_elem_of_singleton]%elem_of_app; [by apply Hdone|done].
      * exists bad. split; [|done].
        apply elem_of_cons in Hin as [->|Hin]; [done|done].
Qed.

Lemma sidebarTree_throws (all : list ContentEntry) (dir : string) :
  (∃ e, e ∈ filter (in_directory dir) all
        ∧ groupKey dir e ∈ JsObject.inherited_keys) →
  sidebarTree all dir = None.
Proof.
  intros Hbad. unfold sidebarTree. rewrite filter_under.
  pose proof (buildGroups_throws dir [] (filter (in_directory dir) all)) as Hb.
  change (grouped dir []) with (@nil (string * SidebarGroup)) in Hb.
  rewrite Hb; [done| |done]. by intros e ?%elem_of_nil.
Qed.

(** The sidebar builder throws exactly when some entry in or below the
    directory is grouped under a key that plain objects inherit, as is an
    entry of a subfolder named [constructor] or [toString]. *)
Theorem sidebarTree_throws_iff (all : list ContentEntry) (dir : string) :
  sidebarTree all dir = None ↔
  ∃ e, e ∈ filter (in_directory dir) all
       ∧ groupKey dir e ∈ JsObject.inherited_keys.
Proof.
  split.
  - intros Hnone.
    destruct (decide (Exists (fun e => groupKey dir e ∈ JsObject.inherited_keys)
                        (filter (in_directory dir) all))) as [Hex|Hno].
    + apply Exists_exists in Hex as (e & He & Hk). by exists e.
    + rewrite sidebarTree_shape in Hnone; [done|].
      intros e He Hk. apply Hno, Exists_exists. by exists e.
  - apply sidebarTree_throws.
Qed.

Lemma sidebarTree_throws_iff_witness :
  (getSidebarTree demo_env "docs"
     (cold [("docs", Dir [("intro.md", page []);
                          ("constructor", Dir [("x.md", page [])])])])).1
  = None.
Proof.
  rewrite getSidebarTree_fst. apply sidebarTree_throws_iff.
  eexists. split.
  - set (l := filter _ _). vm_compute in l. subst l.
    apply list_elem_of_further, list_elem_of_here.
  - apply (bool_decide_unpack _). vm_compute. exact I.
Defined.

(** ** Sidebar: what the tree holds *)

Lemma insert_index_perm {A} (n : Z) (p : string * A) (l : list (Z * (string * A))) :
  JsObject.insert_index n p l ≡ₚ (n, p) :: l.
Proof.
  induction l as [|[m q] l IH]; simpl; [done|].
  destruct (n <=? m); [done|]. rewrite IH. apply Permutation_swap.
Qed.

Lemma entries_perm {A} (o : JsObject.t A) : JsObject.entries o ≡ₚ o.
Proof.
  unfold JsObject.entries. induction o as [|p o IH]; [done|]. simpl.
  destruct (JsObject.array_index p.1) as [n|] eqn:Hp.
  - rewrite bool_decide_eq_false_2 by done. rewrite insert_index_perm. simpl.
    by rewrite IH.
  - rewrite bool_decide_eq_true_2 by done.
    rewrite <- Permutation_middle. by rewrite IH.
Qed.

Lemma bind_perm_ext {A B} (f g : A → list B) (l : list A) :
  (∀ x, f x ≡ₚ g x) → l ≫= f ≡ₚ l ≫= g.
Proof.
  intros Hfg. induction l as [|x l IH]; [done|].
  rewrite !bind_cons. by rewrite Hfg, IH.
Qed.

Lemma bind_fmap {A B C} (f : A → B) (g : B → list C) (l : list A) :
  (f <$> l) ≫= g = l ≫= (g ∘ f).
Proof.
  induction l as [|x l IH]; [done|].
  rewrite fmap_cons, !bind_cons. by rewrite IH.
Qed.

Lemma bind_ext_in {A B} (f g : A → list B) (l : list A) :
  (∀ x, x ∈ l → f x = g x) → l ≫= f = l ≫= g.
Proof.
  intros Hfg. induction l as [|x l IH]; [done|].
  rewrite !bind_cons. rewrite Hfg by by left. rewrite IH; [done|].
  intros y Hy. apply Hfg. by right.
Qed.

Lemma bind_leaves (l : list SidebarItem) : (Leaf <$> l) ≫= node_items = l.
Proof.
  induction l as [|x l IH]; [done|].
  rewrite fmap_cons, bind_cons. simpl. by rewrite IH.
Qed.

Lemma bind_add_one (dir : string) (e : ContentEntry) (l : list ContentEntry)
    (ks : list string) :
  NoDup ks → groupKey dir e ∈ ks →
  ks ≫= (fun k => items_of dir k (e :: l))
  ≡ₚ makeItem e :: (ks ≫= (fun k => items_of dir k l)).
Proof.
  induction 1 as [|k ks Hk Hnd IH]; intros Hin.
  - by apply elem_of_nil in Hin.
  - rewrite !bind_cons. unfold items_of at 1. rewrite filter_cons.
    destruct (decide (groupKey dir e = k)) as [Heq|Hne].
    + rewrite fmap_cons. simpl. apply Permutation_skip.
      apply Permutation_app; [done|].
      rewrite (bind_ext_in _ (fun k' => items_of dir k' l)); [done|].
      intros k' Hk'. unfold items_of. rewrite filter_cons.
      rewrite decide_False; [done|]. intros Heq'. apply Hk. congruence.
    + fold (items_of dir k l). rewrite IH.
      * by rewrite Permutation_middle.
      * apply elem_of_cons in Hin as [?|?]; done.
Qed.

Lemma bind_nothing {A B} (l : list A) : l ≫= (fun _ => @nil B) = [].
Proof. induction l as [|x l IH]; [done|]. by rewrite bind_cons, IH. Qed.

Lemma bind_partition (dir : string) (l : list ContentEntry) (ks : list string) :
  NoDup ks → (∀ e, e ∈ l → groupKey dir e ∈ ks) →
  ks ≫= (fun k => items_of dir k l) ≡ₚ makeItem <$> l.
Proof.
  intros Hnd. induction l as [|e l IH]; intros Hkeys.
  - apply (reflexive_eq (R := (≡ₚ))). apply bind_nothing.
  - rewrite bind_add_one; [|done|apply Hkeys; by left].
    rewrite fmap_cons. apply Permutation_skip, IH.
    intros e' He'. apply Hkeys. by right.
Qed.

Lemma sidebarTree_items (all : list ContentEntry) (dir : string)
    (nodes : list SidebarNode) :
  sidebarTree all dir = Some nodes →
  tree_items nodes ≡ₚ makeItem <$> filter (in_directory dir) all.
Proof.
  intros Hsome.
  assert (Hkeys : ∀ e, e ∈ filter (in_directory dir) all →
                       groupKey dir e ∉ JsObject.inherited_keys).
  { intros e He Hk.
    assert (sidebarTree all dir = None) by (apply sidebarTree_throws; eauto).
    congruence. }
  rewrite sidebarTree_shape in Hsome by done. injection Hsome as <-.
  set (sel := filter (in_directory dir) all) in *.
  set (ks := filter (fun key => key ≠ "_root") (first_seen (groupKey dir <$> sel))).
  unfold tree_items. rewrite bind_app, bind_leaves, bind_fmap.
  rewrite entries_perm, bind_fmap.
  rewrite sort_perm.
  rewrite (bind_perm_ext _ (fun k => items_of dir k sel))
    by (intros k; apply sort_perm).
  change (items_of dir "_root" sel ++ (ks ≫= (fun k => items_of dir k sel)))
    with (("_root" :: ks) ≫= (fun k => items_of dir k sel)).
  apply bind_partition.
  - constructor.
    + by intros [? _]%list_elem_of_filter.
    + apply NoDup_filter, first_seen_NoDup.
  - intros e He. destruct (decide (groupKey dir e = "_root")) as [->|Hne].
    + by left.
    + right. apply list_elem_of_filter. split; [done|].
      apply elem_of_first_seen, list_elem_of_fmap. by exists e.
Qed.

Lemma sidebarTree_nil_iff (all : list ContentEntry) (dir : string)
    (nodes : list SidebarNode) :
  sidebarTree all dir = Some nodes →
  nodes = [] ↔ filter (in_directory dir) all = [].
Proof.
  intros Hsome. pose proof (sidebarTree_items _ _ _ Hsome) as Hitems. split.
  - intros ->. apply Permutation_nil in Hitems. by apply fmap_nil_inv in Hitems.
  - intros Hsel. unfold sidebarTree in Hsome. rewrite filter_under, Hsel in Hsome.
    simpl in Hsome. by injection Hsome as <-.
Qed.

(** When the sidebar builder returns, its tree holds the item of every
    entry in or below the directory exactly once, as a leaf or as a child
    of a group, and nothing else; the tree is empty exactly when no entry
    lies in or below the directory. *)
Theorem sidebarTree_holds_every_entry_once (all : list ContentEntry)
    (dir : string) (nodes : list SidebarNode) :
  sidebarTree all dir = Some nodes →
  tree_items nodes ≡ₚ makeItem <$> filter (in_directory dir) all
  ∧ (nodes = [] ↔ filter (in_directory dir) all = []).
Proof.
  intros Hsome. split.
  - by apply sidebarTree_items.
  - by apply sidebarTree_nil_iff.
Qed.

Lemma sidebarTree_holds_every_entry_once_witness :
  ∃ nodes,
    sidebarTree (getAllContent demo_env (cold ordered_pages)).1 "docs" = Some nodes
    ∧ tree_items nodes
      ≡ₚ makeItem <$> filter (in_directory "docs")
                       (getAllContent demo_env (cold ordered_pages)).1.
Proof.
  assert (H : ∃ nodes, sidebarTree (getAllContent demo_env (cold ordered_pages)).1
                         "docs" = Some nodes).
  { eexists. vm_compute. reflexivity. }
  destruct H as [nodes H]. exists nodes. split; [exact H|].
  apply (sidebarTree_holds_every_entry_once _ _ _ H).
Defined.

(** ** Sidebar of all folders *)

(** A call that follows another with no edit in between returns the same
    content, in development mode and outside it. *)
Lemma getAllContent_again (env : Env) (st : Store) :
  (getAllContent env (getAllContent env st).2).1 = (getAllContent env st).1.
Proof.
  destruct (isDev env) eqn:Hdev.
  - assert (Hcall : ∀ s, getAllContent env s
                         = ((scanContentDirectory env s).1,
                            {| disk := disk s; cachedContent := None;
                               scans := S (scans s) |})).
    { intros s. unfold getAllContent. by rewrite Hdev. }
    by rewrite !Hcall.
  - destruct (cachedContent st) as [c|] eqn:Hc.
    + rewrite (getAllContent_warm env st c) by done. simpl.
      by rewrite (getAllContent_warm env st c).
    + rewrite (getAllContent_cold env st) by done. simpl.
      by rewrite (getAllContent_warm env _ (scanContentDirectory env st).1).
Qed.

Lemma sidebarSections_ok (env : Env) (all : list ContentEntry)
    (dirs : list DirectoryDescriptor) (result : list SidebarSection) (st : Store) :
  (getAllContent env st).1 = all →
  (∀ d, d ∈ dirs → sidebarTree all (dir_name d) ≠ None) →
  (sidebarSections env dirs result st).1
  = Some (result
          ++ (section_of all
              <$> filter (fun d => filter (in_directory (dir_name d)) all ≠ []) dirs)).
Proof.
  revert result st. induction dirs as [|d dirs IH]; intros result st Hall Hok.
  - simpl. by rewrite app_nil_r.
  - cbn [sidebarSections]. unfold getSidebarTree.
    pose proof (getAllContent_again env st) as Hagain.
    destruct (getAllContent env st) as [content st'] eqn:Hget.
    simpl in Hall, Hagain. subst content.
    destruct (sidebarTree all (dir_name d)) as [nodes|] eqn:Hd.
    2:{ exfalso. apply (Hok d); [by left|done]. }
    pose proof (sidebarTree_nil_iff _ _ _ Hd) as Hempty.
    assert (Hrest : ∀ d', d' ∈ dirs → sidebarTree all (dir_name d') ≠ None)
      by (intros d' Hd'; apply Hok; by right).
    rewrite filter_cons. destruct nodes as [|node nodes].
    + rewrite decide_False by (intros Hne; by apply Hne, Hempty).
      by apply IH.
    + rewrite decide_True.
      2:{ intros Hsel. by apply Hempty in Hsel. }
      rewrite IH by done. rewrite fmap_cons, <- app_assoc. simpl.
      unfold section_of at 2. by rewrite Hd.
Qed.

Lemma sidebarSections_throws (env : Env) (all : list ContentEntry)
    (dirs : list DirectoryDescriptor) (result : list SidebarSection) (st : Store) :
  (getAllContent env st).1 = all →
  (∃ d, d ∈ dirs ∧ sidebarTree all (dir_name d) = None) →
  (sidebarSections env dirs result st).1 = None.
Proof.
  revert result st. induction dirs as [|d dirs IH]; intros result st Hall [bad [Hin Hbad]].
  - by apply elem_of_nil in Hin.
  - cbn [sidebarSections]. unfold getSidebarTree.
    pose proof (getAllContent_again env st) as Hagain.
    destruct (getAllContent env st) as [content st'] eqn:Hget.
    simpl in Hall, Hagain. subst content.
    destruct (sidebarTree all (dir_name d)) as [nodes|] eqn:Hd; [|done].
    assert (Hrest : ∃ d', d' ∈ dirs ∧ sidebarTree all (dir_name d') = None).
    { exists bad. split; [|done].
      apply elem_of_cons in Hin as [->|Hin]; [congruence|done]. }
    destruct nodes; by apply IH.
Qed.

(** The sidebar of all folders has one section per folder of the content
    directory that holds at least one entry, in listing order, each with
    the folder's title, url and sidebar tree; folders without entries are
    left out. The call throws exactly when the sidebar of one of the
    folders does. *)
Theorem getAllDirectoriesSidebar_sections (env : Env) (st : Store) :
  let all := (getAllContent env st).1 in
  let dirs := getContentDirectories st in
  ((∀ d, d ∈ dirs → sidebarTree all (dir_name d) ≠ None) →
   (getAllDirectoriesSidebar env st).1
   = Some (section_of all
           <$> filter (fun d => filter (in_directory (dir_name d)) all ≠ []) dirs))
  ∧ ((getAllDirectoriesSidebar env st).1 = None ↔
     ∃ d, d ∈ dirs ∧ sidebarTree all (dir_name d) = None).
Proof.
  intros all dirs. unfold getAllDirectoriesSidebar. fold dirs. split.
  - intros Hok. by rewrite (sidebarSections_ok env all dirs [] st).
  - split.
    + intros Hnone.
      destruct (decide (Exists (fun d => sidebarTree all (dir_name d) = None) dirs))
        as [Hex|Hno].
      * apply Exists_exists in Hex as (d & Hd & Hbad). by exists d.
      * rewrite (sidebarSections_ok env all dirs [] st) in Hnone; [done..|].
        intros d Hd Hbad. apply Hno, Exists_exists. by exists d.
    + by apply sidebarSections_throws.
Qed.

Lemma getAllDirectoriesSidebar_sections_witness :
  (fun sections : list SidebarSection => section_title <$> sections) <$>
    (getAllDirectoriesSidebar demo_env
       (cold [("docs", Dir [("a.md", page [])]);
              ("assets", Dir [("logo.png", Other)]);
              ("notes.md", page []);
              ("blog", Dir [("2024", Dir [("b.md", page [])])])])).1
  = Some ["Docs"; "Blog"].
Proof.
  destruct (getAllDirectoriesSidebar_sections demo_env
    (cold [("docs", Dir [("a.md", page [])]);
           ("assets", Dir [("logo.png", Other)]);
           ("notes.md", page []);
           ("blog", Dir [("2024", Dir [("b.md", page [])])])])) as [H _].
  rewrite H.
  - vm_compute. reflexivity.
  - apply Forall_forall.
    set (dirs := getContentDirectories _). vm_compute in dirs. subst dirs.
    repeat (apply Forall_cons; split; [vm_compute; discriminate|]).
    apply Forall_nil. done.
Defined.

(** ** Template substitution: what stays as it is *)

Lemma parses_text_back (text : string) (ps : list piece) :
  parses text ps → concat_strings (piece_text <$> ps) = text.
Proof.
  induction 1 as [|name rest ps Hc Hp IH|c s ps Hno Hp IH]; [done|..].
  - rewrite fmap_cons. unfold concat_strings in *. cbn [foldr piece_text].
    rewrite IH. by rewrite !app_assoc_s.
  - rewrite fmap_cons. unfold concat_strings in *. cbn [foldr piece_text].
    by rewrite IH.
Qed.

Lemma match_placeholder_needs_braces (s : string) :
  JsString.startsWith s "{{" = false → match_placeholder s = None.
Proof.
  intros Hs. unfold match_placeholder.
  destruct (JsString.strip_prefix "{{" s) as [r|] eqn:Hp; [|done].
  assert (JsString.startsWith s "{{" = true) by (apply prefix_strip; eauto).
  congruence.
Qed.

(** Substitution with no variable at all returns the text unchanged, and
    so does substitution with any variables on a text without [{{], which
    moreover logs nothing. *)
Theorem substitute_leaves_text (vars : gmap string jsval) (text : string) :
  (substitute ∅ text).1 = text
  ∧ (JsString.includes text "{{" = false → substitute vars text = (text, [])).
Proof.
  split.
  - destruct (parses_total text) as [ps Hps].
    rewrite (substitute_parses ∅ text ps Hps). simpl.
    etrans; [|apply (parses_text_back text ps Hps)]. by f_equal.
  - unfold substitute. induction text as [|c s IH]; [done|].
    cbn [JsString.includes]. intros [Hhere Hrest]%orb_false_iff.
    cbn [replace_placeholders].
    rewrite (match_placeholder_needs_braces _ Hhere). by rewrite IH.
Qed.

Lemma substitute_leaves_text_witness :
  JsString.includes "Plain {text} with } and { only." "{{" = false
  ∧ substitute (variables demo_env) "Plain {text} with } and { only."
    = ("Plain {text} with } and { only.", []).
Proof.
  split; [reflexivity|].
  apply (substitute_leaves_text (variables demo_env)). reflexivity.
Defined.

(** ** Link transformer: every directory *)

Lemma normalize_absolute (p : string) :
  JsString.startsWith (Path.normalize (String "/" p)) "/" = true.
Proof.
  unfold Path.normalize.
  assert (JsString.eqb (String "/" p) "" = false) as -> by done.
  assert (JsString.startsWith (String "/" p) "/" = true) as ->
    by (apply startsWith_spec; by exists p).
  cbn [negb]. destruct (JsString.eqb _ ""); [done|].
  apply startsWith_spec. eexists. reflexivity.
Qed.

Lemma join_from_root (dir h : string) :
  JsString.startsWith (Path.join ["/"; dir; h]) "/" = true.
Proof.
  unfold Path.join.
  set (f := fun a => negb (JsString.eqb a "")).
  change (List.filter f ["/"; dir; h]) with ("/" :: List.filter f [dir; h]).
  destruct (List.filter f [dir; h]) as [|w ws] eqn:Hf.
  - apply (normalize_absolute "").
  - rewrite join_cons by done. apply normalize_absolute.
Qed.

Lemma replace_all_char_first (c d a : ascii) (s : string) :
  a ≠ c →
  JsString.replace_all_char c d (String a s)
  = String a (JsString.replace_all_char c d s).
Proof. intros H. simpl. by rewrite bool_decide_eq_false_2. Qed.

Lemma strip_trailing_absolute (s : string) :
  JsString.strip_trailing "/" (String "/" s) = ""
  ∨ JsString.startsWith (JsString.strip_trailing "/" (String "/" s)) "/" = true.
Proof.
  destruct s as [|c s]; [by left|]. right.
  apply startsWith_spec. eexists. reflexivity.
Qed.

(** Whatever the directory of the file: an empty href, an href with a
    scheme and a fragment are never rewritten; an href that starts with a
    slash only loses a final [.md]; every other href is rewritten to a path
    that starts with a slash, or to the empty string when a relative href
    resolves to the root. *)
Theorem transformHref_cases (dir h : string) :
  (h = "" ∨ hasProtocol h = true ∨ JsString.startsWith h "#" = true →
   transformHref dir h = h)
  ∧ (h ≠ "" → hasProtocol h = false → JsString.startsWith h "#" = false →
     transformHref dir h = ""
     ∨ JsString.startsWith (transformHref dir h) "/" = true).
Proof.
  unfold transformHref. split.
  - intros [->|[Hp|Hf]]; [done|rewrite Hp|rewrite Hf];
      by rewrite ?andb_false_r.
  - intros Hne Hp Hf. rewrite Hp, Hf.
    assert (JsString.eqb h "" = false) as -> by by apply bool_decide_eq_false.
    cbn [negb andb].
    set (h' := if JsString.endsWith h ".md" then JsString.slice_end h 3 else h).
    destruct (JsString.startsWith h' "./" || JsString.startsWith h' "../").
    + pose proof (join_from_root dir h') as Hj.
      apply startsWith_spec in Hj as [r ->]. change ("/" +:+ r) with (String "/" r).
      rewrite replace_all_char_first by done. apply strip_trailing_absolute.
    + destruct (JsString.startsWith h' "/") eqn:Hh'; cbn [negb]; [by right|].
      right. pose proof (join_from_root dir h') as Hj.
      apply startsWith_spec in Hj as [r ->]. change ("/" +:+ r) with (String "/" r).
      rewrite replace_all_char_first by done.
      apply startsWith_spec. eexists. reflexivity.
Qed.

Lemma transformHref_cases_witness :
  (hasProtocol "mailto:me@example.com" = true
   ∧ transformHref "docs/guide" "mailto:me@example.com" = "mailto:me@example.com")
  ∧ ("./" ≠ "" ∧ hasProtocol "./" = false ∧ JsString.startsWith "./" "#" = false
     ∧ transformHref "" "./" = "")
  ∧ JsString.startsWith (transformHref "docs/guide" "../api/index.md") "/" = true.
Proof.
  destruct (transformHref_cases "docs/guide" "mailto:me@example.com") as [H1 _].
  destruct (transformHref_cases "docs/guide" "../api/index.md") as [_ H2].
  split; [split; [reflexivity|apply H1; right; left; reflexivity]|].
  split; [repeat split; try done; vm_compute; reflexivity|].
  destruct H2 as [H2|H2]; [done|reflexivity|reflexivity| |exact H2].
  vm_compute in H2. discriminate.
Defined.

(** ** Heading stripping: what is cut, and headings over several lines *)

Lemma lazy_close_ends (s r : string) :
  lazy_close s = Some r → ∃ i, s = (i +:+ "</h1>") +:+ r.
Proof.
  intros [i ->]%lazy_close_spec. exists i. by rewrite app_assoc_s.
Qed.

Lemma match_h1_block (s rest : string) :
  match_h1 s = Some rest →
  ∃ m, s = m +:+ rest ∧ JsString.startsWith m "<h1" = true
       ∧ JsString.endsWith m "</h1>" = true.
Proof.
  unfold match_h1.
  destruct (JsString.strip_prefix "<h1" s) as [s1|] eqn:H1; [|done]. simpl.
  destruct (tag_rest s1) as [s2|] eqn:H2; [|done]. simpl.
  intros [i ->]%lazy_close_spec.
  apply tag_rest_spec in H2 as [a ->].
  apply strip_prefix_Some in H1 as ->.
  exists ("<h1" +:+ a +:+ ">" +:+ i +:+ "</h1>"). split; [|split].
  - by rewrite !app_assoc_s.
  - apply startsWith_spec. by eexists.
  - rewrite <- !app_assoc_s. apply endsWith_app_self.
Qed.

Lemma strip_prefix_across (p x rest : string) (nl : ascii) :
  has_line_terminator p = false → JsString.is_line_terminator nl = true →
  JsString.strip_prefix p (x +:+ String nl rest) ≠ None →
  String.prefix p x = true.
Proof.
  intros Hp Hnl. revert x. induction p as [|a p IH]; intros x Hs.
  - apply prefix_nil.
  - simpl in Hp. apply orb_false_iff in Hp as [Ha Hp].
    destruct x as [|b x].
    + change ("" +:+ String nl rest) with (String nl rest) in Hs. simpl in Hs.
      case_bool_decide as Hab; [|done]. subst nl. congruence.
    + rewrite app_cons in Hs. simpl in Hs. rewrite prefix_cons.
      case_bool_decide as Hab; [|done]. subst b.
      destruct (ascii_dec a a); [|done]. by apply IH.
Qed.

Lemma lazy_close_line_break (a rest : string) (nl : ascii) :
  JsString.is_line_terminator nl = true →
  JsString.includes a "</h1>" = false →
  lazy_close (a +:+ String nl rest) = None.
Proof.
  intros Hnl. induction a as [|c a IH]; intros Hinc.
  - change ("" +:+ String nl rest) with (String nl rest). cbn [lazy_close].
    assert (JsString.strip_prefix "</h1>" (String nl rest) = None) as ->.
    { simpl. case_bool_decide as H; [|done]. subst nl. done. }
    by rewrite Hnl.
  - cbn [JsString.includes] in Hinc. apply orb_false_iff in Hinc as [Hhere Hinc].
    rewrite app_cons. cbn [lazy_close].
    assert (JsString.strip_prefix "</h1>" (String c (a +:+ String nl rest)) = None)
      as ->.
    { destruct (JsString.strip_prefix _ _) eqn:Hp; [|done].
      assert (String.prefix "</h1>" (String c a) = true) as Hpre.
      { apply (strip_prefix_across "</h1>" (String c a) rest nl); [done|done|].
        rewrite app_cons. by rewrite Hp. }
      unfold JsString.startsWith in Hhere. congruence. }
    destruct (JsString.is_line_terminator c); [done|]. by apply IH.
Qed.

Lemma count_h1_app_h1 (pre t : string) : (1 ≤ count_h1 (pre +:+ "<h1" +:+ t))%nat.
Proof.
  induction pre as [|c pre IH].
  - change ("" +:+ "<h1" +:+ t) with ("<h1" +:+ t). 
    change ("<h1" +:+ t) with (String "<" ("h1" +:+ t)). cbn [count_h1].
    assert (JsString.startsWith (String "<" ("h1" +:+ t)) "<h1" = true) as ->
      by (apply startsWith_spec; by exists t).
    lia.
  - rewrite app_cons. cbn [count_h1]. lia.
Qed.

(** What the stripping cuts out is one block that starts with [<h1] and
    ends with [</h1>], or nothing; a text without [<h1] is returned as it
    is. A heading that runs over a line break is not cut: when it is the
    only [<h1] of the text, the text is returned as it is. *)
Theorem removeFirstH1_cut (html pre attrs a rest : string) (nl : ascii) :
  (removeFirstH1 html = html
   ∨ ∃ before block after,
       html = before +:+ block +:+ after
       ∧ removeFirstH1 html = before +:+ after
       ∧ JsString.startsWith block "<h1" = true
       ∧ JsString.endsWith block "</h1>" = true)
  ∧ (count_h1 html = 0%nat → removeFirstH1 html = html)
  ∧ (html = pre +:+ "<h1" +:+ attrs +:+ ">" +:+ a +:+ String nl rest →
     count_h1 html = 1%nat →
     has_char ">" attrs = false →
     JsString.includes a "</h1>" = false →
     JsString.is_line_terminator nl = true →
     removeFirstH1 html = html).
Proof.
  split; [|split].
  - induction html as [|c s IH]; [by left|].
    cbn [removeFirstH1].
    destruct (match_h1 (String c s)) as [r|] eqn:Hm.
    + right. apply match_h1_block in Hm as (m & Hs & H1 & H2).
      exists "", m, r. by rewrite Hs.
    + destruct IH as [->|(before & block & after & -> & -> & H1 & H2)]; [by left|].
      right. by exists (String c before), block, after.
  - apply count_h1_zero_id.
  - intros -> Hcount Hattrs Ha Hnl.
    assert (Hm : match_h1 ("<h1" +:+ attrs +:+ ">" +:+ a +:+ String nl rest) = None).
    { unfold match_h1.
      assert (JsString.strip_prefix "<h1"
                ("<h1" +:+ attrs +:+ ">" +:+ a +:+ String nl rest)
              = Some (attrs +:+ ">" +:+ a +:+ String nl rest)) as ->
        by by apply strip_prefix_Some.
      simpl. rewrite tag_rest_app by done. simpl.
      by apply lazy_close_line_break. }
    induction pre as [|c pre IH].
    + change ("" +:+ ?x) with x in *.
      change ("<h1" +:+ attrs +:+ ">" +:+ a +:+ String nl rest)
        with (String "<" ("h1" +:+ attrs +:+ ">" +:+ a +:+ String nl rest)) in *.
      cbn [removeFirstH1]. rewrite Hm. f_equal.
      cbn [count_h1] in Hcount.
      assert (JsString.startsWith
                (String "<" ("h1" +:+ attrs +:+ ">" +:+ a +:+ String nl rest)) "<h1"
              = true) as Hs by (apply startsWith_spec; by eexists).
      rewrite Hs in Hcount. apply count_h1_zero_id. lia.
    + change (String c pre +:+ ?x) with (String c (pre +:+ x)) in *.
      cbn [count_h1] in Hcount.
      pose proof (count_h1_app_h1 pre (attrs +:+ ">" +:+ a +:+ String nl rest)) as Hge.
      destruct (JsString.startsWith _ "<h1") eqn:Hs; [lia|].
      cbn [removeFirstH1]. rewrite (match_h1_None _ Hs). f_equal.
      apply IH. lia.
Qed.

Lemma removeFirstH1_cut_witness :
  count_h1 ("<p>intro</p>" +:+ "<h1" +:+ " id='t'" +:+ ">" +:+ "Two"
            +:+ String "010" "lines</h1><h2>next</h2>") = 1%nat
  ∧ removeFirstH1 ("<p>intro</p>" +:+ "<h1" +:+ " id='t'" +:+ ">" +:+ "Two"
                   +:+ String "010" "lines</h1><h2>next</h2>")
    = "<p>intro</p>" +:+ "<h1" +:+ " id='t'" +:+ ">" +:+ "Two"
      +:+ String "010" "lines</h1><h2>next</h2>".
Proof.
  split; [reflexivity|].
  apply (removeFirstH1_cut _ "<p>intro</p>" " id='t'" "Two"
           "lines</h1><h2>next</h2>" "010"); reflexivity.
Defined.

(** ** Metadata of a scanned entry *)

Lemma processMetadata_lookup (env : Env) (data : gmap string jsval) (k : string) :
  k ≠ "__proto__" → processMetadata env data !! k = substituted env <$> data !! k.
Proof.
  intros Hk. unfold processMetadata. rewrite lookup_delete_ne by done.
  by rewrite lookup_fmap.
Qed.

(** The metadata of an entry holds every front-matter key (other than
    [__proto__]) with its value, string values having gone through the
    template substitution and all others being kept as they are, falsy ones
    included; [title], [description], [date] and [author] absent from the
    front matter get the formatted slug, the empty string, [null] and
    [null]; no other key appears. *)
Theorem makeEntry_metadata (env : Env) (relativePath entry : string)
    (data : gmap string jsval) (markdownContent : string) (k : string) (v : jsval) :
  let e := makeEntry env relativePath entry data markdownContent in
  (k ≠ "__proto__" → data !! k = Some v →
   metadata e !! k = Some (substituted env v))
  ∧ (data !! "title" = None →
     metadata e !! "title" = Some (JStr (formatTitle (slug e))))
  ∧ (data !! "description" = None → metadata e !! "description" = Some (JStr ""))
  ∧ (data !! "date" = None → metadata e !! "date" = Some JNull)
  ∧ (data !! "author" = None → metadata e !! "author" = Some JNull)
  ∧ (k ∉ ["title"; "description"; "date"; "author"] →
     data !! k = None ∨ k = "__proto__" → metadata e !! k = None).
Proof.
  intros e. unfold e, makeEntry, finalMetadata. cbn [metadata slug].
  set (pm := processMetadata env data).
  set (sl := JsString.replace ".md" "" entry).
  assert (Hdefault : ∀ key, key ≠ "__proto__" → data !! key = None → pm !! key = None).
  { intros key Hkey Hnone. unfold pm. by rewrite processMetadata_lookup, Hnone. }
  split; [|split; [|split; [|split; [|split]]]].
  - intros Hk Hv. apply lookup_union_Some_l.
    unfold pm. by rewrite processMetadata_lookup, Hv.
  - intros Hnone. rewrite lookup_union_r by by apply Hdefault.
    unfold Js.get. rewrite (Hdefault "title") by done. done.
  - intros Hnone. rewrite lookup_union_r by by apply Hdefault.
    unfold Js.get. rewrite (Hdefault "description") by done. done.
  - intros Hnone. rewrite lookup_union_r by by apply Hdefault.
    unfold Js.get. rewrite (Hdefault "date") by done. done.
  - intros Hnone. rewrite lookup_union_r by by apply Hdefault.
    unfold Js.get. rewrite (Hdefault "author") by done. done.
  - intros Hk Hnone. apply lookup_union_None. split.
    + destruct Hnone as [Hnone| ->].
      * destruct (decide (k = "__proto__")) as [->|Hp].
        -- unfold pm, processMetadata. apply lookup_delete_eq.
        -- by apply Hdefault.
      * unfold pm, processMetadata. apply lookup_delete_eq.
    + apply not_elem_of_list_to_map_1. cbn [fmap list_fmap fst]. done.
Qed.

Lemma makeEntry_metadata_witness :
  metadata (makeEntry demo_env "blog" "post.md"
              (list_to_map [("title", JStr ""); ("draft", JBool false);
                            ("tagline", JStr "By {{site.name}}")]) "")
    !! "tagline" = Some (JStr "By Acme")
  ∧ metadata (makeEntry demo_env "blog" "post.md"
                (list_to_map [("title", JStr ""); ("draft", JBool false);
                              ("tagline", JStr "By {{site.name}}")]) "")
      !! "author" = Some JNull.
Proof.
  pose proof (makeEntry_metadata demo_env "blog" "post.md"
    (list_to_map [("title", JStr ""); ("draft", JBool false);
                  ("tagline", JStr "By {{site.name}}")]) ""
    "tagline" (JStr "By {{site.name}}")) as (H1 & _ & _ & _ & H5 & _).
  split.
  - rewrite H1; [|done|reflexivity]. vm_compute. reflexivity.
  - apply H5. reflexivity.
Defined.

(** ** Subdirectories *)

Lemma replace_unfold (pat rep s : string) :
  JsString.replace pat rep s
  = match JsString.strip_prefix pat s with
    | Some rest => rep +:+ rest
    | None =>
        match s with
        | "" => ""
        | String c s' => String c (JsString.replace pat rep s')
        end
    end.
Proof. by destruct s. Qed.

Lemma replace_prefix (p r : string) : JsString.replace p "" (p +:+ r) = r.
Proof.
  rewrite replace_unfold.
  by assert (JsString.strip_prefix p (p +:+ r) = Some r) as ->
    by by apply strip_prefix_Some.
Qed.

Lemma replace_absent (c : ascii) (p rep s : string) :
  has_char c p = true → has_char c s = false → JsString.replace p rep s = s.
Proof.
  intros Hp. induction s as [|d s IH]; intros Hs; rewrite replace_unfold.
  - destruct (JsString.strip_prefix p "") as [r|] eqn:Hr; [|done].
    apply strip_prefix_Some in Hr. symmetry in Hr.
    assert (has_char c (p +:+ r) = false) as Hpr by by rewrite Hr.
    rewrite has_char_app, Hp in Hpr. done.
  - destruct (JsString.strip_prefix p (String d s)) as [r|] eqn:Hr.
    + apply strip_prefix_Some in Hr. rewrite Hr, has_char_app, Hp in Hs. done.
    + simpl in Hs. apply orb_false_iff in Hs as [_ Hs]. by rewrite IH.
Qed.

Lemma includes_char (c : ascii) (s : string) :
  JsString.includes s (String c "") = has_char c s.
Proof.
  induction s as [|d s IH]; [done|].
  cbn [JsString.includes has_char]. rewrite IH. f_equal.
  unfold JsString.startsWith. rewrite prefix_cons, prefix_nil.
  destruct (ascii_dec c d) as [->|Hne].
  - by rewrite bool_decide_eq_true_2.
  - rewrite bool_decide_eq_false_2; [done|]. by intros ->.
Qed.

Lemma has_char_first (c : ascii) (s : string) :
  has_char c s = true →
  ∃ a b, s = a +:+ String c b ∧ has_char c a = false.
Proof.
  induction s as [|d s IH]; [done|]. simpl.
  case_bool_decide as Hd.
  - intros _. subst d. by exists "", s.
  - intros (a & b & -> & Ha)%IH. exists (String d a), b. split; [done|].
    simpl. by rewrite bool_decide_eq_false_2.
Qed.

Lemma split_first (c : ascii) (a b : string) :
  has_char c a = false →
  JsString.split c (a +:+ String c b) = a :: JsString.split c b.
Proof.
  induction a as [|d a IH]; intros Ha.
  - change ("" +:+ String c b) with (String c b). rewrite split_cons.
    by rewrite bool_decide_eq_true_2.
  - simpl in Ha. apply orb_false_iff in Ha as [Hd Ha].
    rewrite app_cons, split_cons, Hd, IH by done. done.
Qed.

Lemma addSubdir_first_level (dir : string) (subdirs : list string)
    (entry : ContentEntry) :
  addSubdir dir subdirs entry
  = match first_level dir entry with
    | Some x => set_add x subdirs
    | None => subdirs
    end.
Proof.
  unfold addSubdir, first_level.
  destruct (_ && _); [|done].
  by destruct (JsString.split "/" _).
Qed.

Lemma fold_addSubdir (dir : string) (l : list ContentEntry) (acc : list string) :
  NoDup acc →
  NoDup (fold_left (addSubdir dir) l acc)
  ∧ ∀ x, x ∈ fold_left (addSubdir dir) l acc ↔
         x ∈ acc ∨ ∃ e, e ∈ l ∧ first_level dir e = Some x.
Proof.
  revert acc. induction l as [|e l IH]; intros acc Hacc; simpl.
  - split; [done|]. intros x. split; [by left|].
    intros [?|(e & []%elem_of_nil & _)]. done.
  - rewrite addSubdir_first_level.
    destruct (first_level dir e) as [y|] eqn:Hy.
    + assert (Hnd : NoDup (set_add y acc)).
      { unfold set_add. case_bool_decide as Hin; [done|].
        apply NoDup_app. split; [done|]. split; [|apply NoDup_singleton].
        by intros z Hz ->%list_elem_of_singleton. }
      destruct (IH _ Hnd) as [Hnd' Hmem]. split; [done|].
      intros x. rewrite Hmem. unfold set_add. split.
      * intros [Hx|(e' & He' & Hx)].
        -- case_bool_decide; [by left|].
           apply elem_of_app in Hx as [?| ->%list_elem_of_singleton]; [by left|].
           right. exists e. split; [by left|done].
        -- right. exists e'. split; [by right|done].
      * intros [Hx|(e' & [->|He']%elem_of_cons & Hx)].
        -- left. case_bool_decide; [done|]. apply elem_of_app. by left.
        -- left. rewrite Hy in Hx. injection Hx as ->.
           case_bool_decide; [done|]. apply elem_of_app. right. by left.
        -- right. by exists e'.
    + destruct (IH _ Hacc) as [Hnd' Hmem]. split; [done|].
      intros x. rewrite Hmem. split.
      * intros [?|(e' & He' & Hx)]; [by left|]. right. exists e'. split; [by right|done].
      * intros [?|(e' & [->|He']%elem_of_cons & Hx)]; [by left|congruence|].
        right. by exists e'.
Qed.

Lemma first_level_below (dir name : string) (e : ContentEntry) :
  has_char "/" dir = false →
  in_directory dir e →
  first_level dir e = Some name ↔
  ∃ rest, directory e = dir +:+ "/" +:+ name +:+ "/" +:+ rest
          ∧ has_char "/" name = false.
Proof.
  intros Hdir [Heq|[r Hr]]; unfold first_level.
  - rewrite Heq.
    rewrite (replace_absent "/" (dir +:+ "/") "" dir); [|by rewrite has_char_app, orb_true_r|done].
    rewrite (includes_char "/"), Hdir, andb_false_r. split; [done|].
    intros (rest & Hrest & _).
    assert (has_char "/" (dir +:+ "/" +:+ name +:+ "/" +:+ rest) = false) as Hc
      by by rewrite <- Hrest.
    rewrite has_char_app in Hc. apply orb_false_iff in Hc as [_ Hc]. done.
  - rewrite Hr. rewrite <- app_assoc_s, replace_prefix.
    rewrite (includes_char "/").
    destruct (has_char "/" r) eqn:Hslash.
    + destruct (has_char_first _ _ Hslash) as (a & b & -> & Ha).
      assert (JsString.eqb (a +:+ String "/" b) "" = false) as ->.
      { apply bool_decide_eq_false. by destruct a. }
      cbn [negb andb]. rewrite split_first by done. cbn [head]. split.
      * intros [= ->]. exists b. split; [|done].
        by rewrite !app_assoc_s.
      * intros (rest & Hrest & Hname). f_equal.
        rewrite !app_assoc_s in Hrest. apply (inj (String.app _)) in Hrest.
        change ("/" +:+ ?x) with (String "/" x) in Hrest.
        injection Hrest as Hrest. clear - Hrest Ha Hname.
        revert name Hrest Hname. induction a as [|c a IH]; intros [|d name] Hrest Hname.
        -- done.
        -- injection Hrest as <- _. simpl in Hname. done.
        -- injection Hrest as -> _. simpl in Ha. done.
        -- injection Hrest as -> Hrest. f_equal. simpl in Ha, Hname.
           apply orb_false_iff in Ha as [_ Ha]. apply orb_false_iff in Hname as [_ Hname].
           by apply IH.
    + rewrite andb_false_r. split; [done|].
      intros (rest & Hrest & _).
      rewrite !app_assoc_s in Hrest. apply (inj (String.app _)) in Hrest.
      change ("/" +:+ ?x) with (String "/" x) in Hrest. injection Hrest as ->.
      rewrite has_char_app in Hslash. apply orb_false_iff in Hslash as [_ Hslash].
      done.
Qed.

(** For a directory given by a single segment, the subdirectories
    reported are the distinct names [n] such that some entry lies in
    [dir/n/...], at least two levels below the directory: an entry located
    directly in [dir/n] does not make [n] a subdirectory. Each descriptor
    has path [dir/n], url [/dir/n] and the formatted name as title. *)
Theorem subDirectories_two_levels (all : list ContentEntry) (dir name : string) :
  has_char "/" dir = false →
  (name ∈ (dir_name <$> subDirectories all dir) ↔
   ∃ e rest, e ∈ all
             ∧ directory e = dir +:+ "/" +:+ name +:+ "/" +:+ rest
             ∧ has_char "/" name = false)
  ∧ NoDup (dir_name <$> subDirectories all dir)
  ∧ (∀ d, d ∈ subDirectories all dir →
          dir_path d = dir +:+ "/" +:+ dir_name d
          ∧ dir_url d = "/" +:+ dir +:+ "/" +:+ dir_name d
          ∧ dir_title d = formatTitle (dir_name d)).
Proof.
  intros Hdir. unfold subDirectories.
  set (contents := List.filter _ all).
  assert (Hnames : ∀ l : list string,
    dir_name <$> ((fun subdir =>
      {| dir_name := subdir; dir_path := dir +:+ "/" +:+ subdir;
         dir_title := formatTitle subdir;
         dir_url := "/" +:+ dir +:+ "/" +:+ subdir |}) <$> l) = l).
  { intros l. rewrite <- list_fmap_compose. by rewrite list_fmap_id. }
  rewrite Hnames.
  destruct (fold_addSubdir dir contents [] (NoDup_nil_2)) as [Hnd Hmem].
  split; [|split; [done|]].
  - rewrite Hmem. split.
    + intros [[]%elem_of_nil|(e & He & Hfl)].
      apply list_elem_of_In, filter_In in He as [He Hcond].
      apply andb_true_iff in Hcond as [_ Hu]. apply under_spec in Hu.
      apply (first_level_below dir name e Hdir Hu) in Hfl as (rest & Hrest & Hname).
      exists e, rest. split; [by apply list_elem_of_In|done].
    + intros (e & rest & He & Hrest & Hname). right. exists e.
      assert (Hu : in_directory dir e).
      { right. exists (name +:+ "/" +:+ rest). done. }
      split.
      * apply list_elem_of_In, filter_In. split; [by apply list_elem_of_In|].
        apply andb_true_iff. split; [|by apply under_spec].
        apply negb_true_iff, bool_decide_eq_false. intros Hroot.
        assert (has_char "/" (directory e) = false) as Hc by by rewrite Hroot.
        rewrite Hrest, has_char_app in Hc. apply orb_false_iff in Hc as [_ Hc]. done.
      * apply (first_level_below dir name e Hdir Hu). by exists rest.
  - intros d (x & -> & _)%list_elem_of_fmap. done.
Qed.

Lemma subDirectories_two_levels_witness :
  has_char "/" "blog" = false
  ∧ dir_name <$> (getSubDirectories demo_env "blog"
       (cold [("blog", Dir [("news", Dir [("a.md", page [])]);
                            ("tech", Dir [("js", Dir [("b.md", page [])]);
                                          ("go", Dir [("c.md", page [])])])])])).1
    = ["tech"]
  ∧ NoDup (dir_name <$> subDirectories
       (getAllContent demo_env
          (cold [("blog", Dir [("news", Dir [("a.md", page [])]);
                               ("tech", Dir [("js", Dir [("b.md", page [])]);
                                             ("go", Dir [("c.md", page [])])])])])).1
       "blog").
Proof.
  split; [reflexivity|]. split; [vm_compute; reflexivity|].
  apply (subDirectories_two_levels _ "blog" ""). reflexivity.
Defined.

(** ** Paths of plain names *)

Lemma split_plain (c : ascii) (s : string) :
  has_char c s = false → JsString.split c s = [s].
Proof.
  induction s as [|d s IH]; [done|]. simpl.
  intros [Hd Hs]%orb_false_iff. rewrite Hd, IH by done. done.
Qed.

Lemma join_snoc (sep w : string) (l : list string) :
  l ≠ [] → JsString.join sep (l ++ [w]) = JsString.join sep l +:+ sep +:+ w.
Proof.
  induction l as [|a l IH]; [done|]. intros _.
  destruct l as [|b l]; [done|].
  change ((a :: b :: l) ++ [w]) with (a :: ((b :: l) ++ [w])).
  rewrite (join_cons sep a ((b :: l) ++ [w])) by done.
  rewrite IH by done. rewrite (join_cons sep a (b :: l)) by done.
  by rewrite !app_assoc_s.
Qed.

Lemma split_join (l : list string) :
  Forall (fun s => has_char "/" s = false) l → l ≠ [] →
  JsString.split "/" (JsString.join "/" l) = l.
Proof.
  induction 1 as [|w ws Hw Hws IH]; [done|]. intros _.
  destruct ws as [|w' ws]; [by apply split_plain|].
  rewrite join_cons by done.
  change ("/" +:+ JsString.join "/" (w' :: ws))
    with (String "/" (JsString.join "/" (w' :: ws))).
  rewrite split_first by done. by rewrite IH.
Qed.

Lemma plain_segments_kept (above : bool) (l acc : list string) :
  Forall plain_name l →
  fold_left (Path.step above) l acc = rev l ++ acc.
Proof.
  intros Hl. revert acc. induction Hl as [|w ws Hw Hws IH]; intros acc; [done|].
  destruct Hw as (H1 & H2 & H3 & _). simpl.
  assert (Path.step above acc w = w :: acc) as ->.
  { unfold Path.step, JsString.eqb. by rewrite !bool_decide_eq_false_2. }
  rewrite IH. by rewrite <- app_assoc.
Qed.

Lemma has_char_join (c : ascii) (l : list string) :
  c ≠ "/"%char → Forall (fun s => has_char c s = false) l →
  has_char c (JsString.join "/" l) = false.
Proof.
  intros Hc. induction 1 as [|w ws Hw Hws IH]; [done|].
  destruct ws as [|w' ws]; [done|].
  rewrite join_cons by done. rewrite !has_char_app, Hw, IH. simpl.
  by rewrite bool_decide_eq_false_2.
Qed.

Lemma endsWith_slash_no (a b : string) :
  b ≠ "" → has_char "/" b = false → JsString.endsWith (a +:+ b) "/" = false.
Proof.
  intros Hb Hs. induction a as [|c a IH].
  - change ("" +:+ b) with b. clear Hb. induction b as [|d b IH]; [done|].
    simpl in Hs. apply orb_false_iff in Hs as [Hd Hs].
    cbn [JsString.endsWith]. rewrite IH by done.
    rewrite orb_false_r. apply bool_decide_eq_false. intros [= -> ->].
    by apply bool_decide_eq_false in Hd.
  - rewrite app_cons. cbn [JsString.endsWith]. rewrite IH, orb_false_r.
    apply bool_decide_eq_false. intros [= -> Hab]. by destruct a, b.
Qed.

Lemma join_plain (l : list string) :
  Forall plain_name l → l ≠ [] →
  JsString.join "/" l ≠ ""
  ∧ JsString.startsWith (JsString.join "/" l) "/" = false
  ∧ JsString.endsWith (JsString.join "/" l) "/" = false.
Proof.
  intros Hl Hne.
  destruct l as [|w ws] using rev_ind; [done|]. clear IHws.
  apply Forall_app in Hl as [Hws Hw]. apply Forall_inv in Hw.
  destruct Hw as (Hw1 & _ & _ & Hw4 & _).
  assert (Hend : ∀ a, JsString.endsWith (a +:+ w) "/" = false)
    by (intros a; by apply endsWith_slash_no).
  destruct ws as [|v ws].
  - simpl. split; [done|]. split; [|apply (Hend "")].
    destruct w as [|c w]; [done|]. simpl in Hw4.
    apply orb_false_iff in Hw4 as [Hc _]. apply bool_decide_eq_false in Hc.
    unfold JsString.startsWith. rewrite prefix_cons.
    destruct (ascii_dec "/" c) as [<-|]; done.
  - rewrite join_snoc by done. split; [|split].
    + apply Forall_cons in Hws as [(Hv & _) _].
      destruct ws; simpl; by destruct v.
    + apply Forall_cons in Hws as [(Hv1 & _ & _ & Hv4 & _) _].
      destruct v as [|c v]; [done|]. simpl in Hv4.
      apply orb_false_iff in Hv4 as [Hc _]. apply bool_decide_eq_false in Hc.
      assert (∃ t, JsString.join "/" (String c v :: ws) +:+ "/" +:+ w = String c t)
        as [t ->] by (destruct ws; simpl; eauto).
      unfold JsString.startsWith. rewrite prefix_cons.
      destruct (ascii_dec "/" c) as [<-|]; done.
    + rewrite <- app_assoc_s. apply Hend.
Qed.

Lemma normalize_plain (l : list string) :
  Forall plain_name l → l ≠ [] →
  Path.normalize (JsString.join "/" l) = JsString.join "/" l.
Proof.
  intros Hl Hne. destruct (join_plain l Hl Hne) as (Hj & Hs & He).
  unfold Path.normalize.
  assert (JsString.eqb (JsString.join "/" l) "" = false) as ->
    by by apply bool_decide_eq_false.
  rewrite Hs, He. cbn [negb].
  rewrite split_join; [|eapply Forall_impl; [exact Hl|]; by intros s (_ & _ & _ & ? & _)|done].
  unfold Path.normalizeSegments. rewrite plain_segments_kept by done.
  rewrite app_nil_r, rev_involutive.
  assert (JsString.eqb (JsString.join "/" l) "" = false) as ->
    by by apply bool_decide_eq_false.
  change ("" +:+ JsString.join "/" l +:+ "") with (JsString.join "/" l +:+ "").
  apply app_empty_r.
Qed.

Lemma path_join_plain (segs : list string) (name : string) :
  Forall plain_name segs → plain_name name →
  Path.join [JsString.join "/" segs; name] = JsString.join "/" (segs ++ [name]).
Proof.
  intros Hsegs Hname. unfold Path.join.
  assert (Hn : JsString.eqb name "" = false)
    by (apply bool_decide_eq_false; by destruct Hname).
  destruct segs as [|s segs].
  - cbn [JsString.join List.filter app]. rewrite Hn.
    assert (JsString.eqb "" "" = true) as -> by done. cbn [negb].
    apply (normalize_plain [name]); [by constructor|done].
  - destruct (join_plain (s :: segs) Hsegs) as (Hj & _); [done|].
    cbn [List.filter]. rewrite Hn.
    assert (JsString.eqb (JsString.join "/" (s :: segs)) "" = false) as ->
      by by apply bool_decide_eq_false.
    cbn [negb].
    change (JsString.join "/" [JsString.join "/" (s :: segs); name])
      with (JsString.join "/" (s :: segs) +:+ "/" +:+ name).
    rewrite <- join_snoc by done.
    apply normalize_plain; [|done].
    apply Forall_app. split; [done|by constructor].
Qed.

(** ** Entries of well-named files *)

Lemma replace_cons (pat rep : string) (c : ascii) (s : string) :
  JsString.replace pat rep (String c s)
  = match JsString.strip_prefix pat (String c s) with
    | Some rest => rep +:+ rest
    | None => String c (JsString.replace pat rep s)
    end.
Proof. done. Qed.

Lemma strip_md_none (c : ascii) (s : string) :
  JsString.startsWith (String c s +:+ ".m") ".md" = false →
  JsString.strip_prefix ".md" (String c s +:+ ".md") = None.
Proof.
  unfold JsString.startsWith. rewrite !app_cons, prefix_cons.
  cbn [JsString.strip_prefix].
  destruct (ascii_dec "." c) as [<-|Hc]; [|by rewrite bool_decide_eq_false_2].
  rewrite bool_decide_eq_true_2 by done.
  destruct s as [|c2 s]; [done|].
  rewrite !app_cons, prefix_cons.
  destruct (ascii_dec "m" c2) as [<-|]; [|by rewrite bool_decide_eq_false_2].
  rewrite bool_decide_eq_true_2 by done.
  destruct s as [|c3 s]; [done|].
  rewrite !app_cons, prefix_cons.
  destruct (ascii_dec "d" c3); [by rewrite prefix_nil|by rewrite bool_decide_eq_false_2].
Qed.

Lemma replace_md (stem : string) :
  JsString.includes (stem +:+ ".m") ".md" = false →
  JsString.replace ".md" "" (stem +:+ ".md") = stem.
Proof.
  induction stem as [|c s IH]; [done|].
  rewrite (app_cons c s ".m"). cbn [JsString.includes].
  intros [Hs Hi]%orb_false_iff.
  rewrite (app_cons c s ".md"), replace_cons.
  rewrite <- (app_cons c s ".md"), strip_md_none by done.
  by rewrite IH.
Qed.

Lemma replace_all_char_id (c d : ascii) (s : string) :
  has_char c s = false → JsString.replace_all_char c d s = s.
Proof.
  induction s as [|a s IH]; [done|]. simpl.
  intros [Ha Hs]%orb_false_iff. by rewrite Ha, IH.
Qed.

Lemma plain_no_slash (l : list string) :
  Forall plain_name l → Forall (fun s => has_char "/" s = false) l.
Proof. intros H. eapply Forall_impl; [exact H|]. by intros s (_ & _ & _ & ? & _). Qed.

Lemma plain_no_backslash (l : list string) :
  Forall plain_name l → Forall (fun s => has_char "\" s = false) l.
Proof. intros H. eapply Forall_impl; [exact H|]. by intros s (_ & _ & _ & _ & ?). Qed.

Lemma makeEntry_at (env : Env) (segs : list string) (name stem : string)
    (data : gmap string jsval) (markdownContent : string) :
  Forall plain_name segs → plain_name name → md_name name stem →
  entry_at segs stem
    (makeEntry env (JsString.join "/" segs) name data markdownContent).
Proof.
  intros Hsegs Hname (-> & Hstem & Hmd).
  pose proof Hname as (_ & _ & _ & Hsl & Hbs).
  rewrite has_char_app in Hsl, Hbs.
  apply orb_false_iff in Hsl as [Hsl _]. apply orb_false_iff in Hbs as [Hbs _].
  assert (Hdir : JsString.replace_all_char "\" "/" (JsString.join "/" segs)
                 = JsString.join "/" segs).
  { apply replace_all_char_id, has_char_join; [done|by apply plain_no_backslash]. }
  unfold entry_at, makeEntry.
  cbn [slug path url directory mainDirectory depth].
  rewrite replace_md, Hdir by done.
  repeat match goal with |- _ ∧ _ => split end.
  - done.
  - by apply path_join_plain.
  - destruct segs as [|s segs]; [done|].
    destruct (join_plain (s :: segs) Hsegs) as (Hj & _); [done|].
    assert (JsString.eqb (JsString.join "/" (s :: segs)) "" = false) as ->
      by by apply bool_decide_eq_false.
    cbn [negb]. rewrite join_snoc by done.
    apply replace_all_char_id.
    change ("/" +:+ ?x) with (String "/" x).
    cbn [has_char]. rewrite !has_char_app, Hbs.
    rewrite has_char_join; [done|done|by apply plain_no_backslash].
  - done.
  - destruct segs as [|s segs]; [done|].
    rewrite split_join; [|by apply plain_no_slash|done].
    apply Forall_inv in Hsegs as (Hs & _). by destruct s.
  - destruct segs as [|s segs]; [done|].
    destruct (join_plain (s :: segs) Hsegs) as (Hj & _); [done|].
    assert (JsString.eqb (JsString.join "/" (s :: segs)) "" = false) as ->
      by by apply bool_decide_eq_false.
    rewrite split_join; [done|by apply plain_no_slash|done].
Qed.

(** ** The scan of a well-formed tree *)

Scheme wf_listing_mut := Induction for wf_listing Sort Prop
  with wf_node_mut := Induction for wf_node Sort Prop.

Combined Scheme wf_tree_ind from wf_listing_mut, wf_node_mut.

Lemma scanDir_cons (env : Env) (relativePath name : string) (n : fsnode)
    (rest : list (string * fsnode)) :
  scanDir env relativePath ((name, n) :: rest)
  = scanEntry env relativePath name n ++ scanDir env relativePath rest.
Proof. done. Qed.

Lemma scanEntry_Dir (env : Env) (relativePath name : string)
    (entries : list (string * fsnode)) :
  scanEntry env relativePath name (Dir entries)
  = scanDir env (Path.join [relativePath; name]) entries.
Proof. done. Qed.

Lemma from_name_url (segs : list string) (n1 n2 : string) (e1 e2 : ContentEntry) :
  Forall plain_name segs →
  from_name segs n1 e1 → from_name segs n2 e2 → url e1 = url e2 → n1 = n2.
Proof.
  intros Hsegs (i1 & s1 & (_ & _ & Hu1 & _) & Hi1 & _ & Hs1 & Hn1)
               (i2 & s2 & (_ & _ & Hu2 & _) & Hi2 & _ & Hs2 & Hn2) Hu.
  rewrite Hu1, Hu2 in Hu. injection Hu as Hu.
  apply (f_equal (JsString.split "/")) in Hu.
  change ("" +:+ ?x) with x in Hu. rewrite !split_join in Hu.
  - rewrite <- !app_assoc in Hu.
    apply app_inv_head in Hu. apply app_inj_tail in Hu as [-> ->].
    destruct Hn1 as [[-> ->]|[i1 ->]], Hn2 as [[Hnil ->]|[i2' Heq]];
      try done; congruence.
  - rewrite !Forall_app. split_and!; [by apply plain_no_slash..|by constructor].
  - by destruct segs, i2.
  - rewrite !Forall_app. split_and!; [by apply plain_no_slash..|by constructor].
  - by destruct segs, i1.
Qed.

Lemma scan_located (env : Env) :
  (∀ es, wf_listing es → ∀ segs, Forall plain_name segs →
     Forall (fun e => ∃ name, name ∈ es.*1 ∧ from_name segs name e)
       (scanDir env (JsString.join "/" segs) es)
     ∧ NoDup (url <$> scanDir env (JsString.join "/" segs) es))
  ∧ (∀ n, wf_node n → ∀ segs name,
       Forall plain_name segs → plain_name name → file_name_ok name n →
       Forall (from_name segs name) (scanEntry env (JsString.join "/" segs) name n)
       ∧ NoDup (url <$> scanEntry env (JsString.join "/" segs) name n)).
Proof.
  apply (wf_tree_ind
    (fun es _ => ∀ segs, Forall plain_name segs →
       Forall (fun e => ∃ name, name ∈ es.*1 ∧ from_name segs name e)
         (scanDir env (JsString.join "/" segs) es)
       ∧ NoDup (url <$> scanDir env (JsString.join "/" segs) es))
    (fun n _ => ∀ segs name,
       Forall plain_name segs → plain_name name → file_name_ok name n →
       Forall (from_name segs name) (scanEntry env (JsString.join "/" segs) name n)
       ∧ NoDup (url <$> scanEntry env (JsString.join "/" segs) name n))).
  - intros segs _. split; [constructor|]. constructor.
  - intros name n rest Hname Hfresh Hok _ IHn _ IHrest segs Hsegs.
    destruct (IHn segs name Hsegs Hname Hok) as [Hn Hdn].
    destruct (IHrest segs Hsegs) as [Hr Hdr].
    rewrite scanDir_cons. split.
    + apply Forall_app. split.
      * eapply Forall_impl; [exact Hn|]. intros e He. exists name.
        split; [|done]. rewrite fmap_cons. by left.
      * eapply Forall_impl; [exact Hr|]. intros e (name' & Hin & He).
        exists name'. split; [|done]. rewrite fmap_cons. by right.
    + rewrite fmap_app. apply NoDup_app. split; [done|]. split; [|done].
      intros u (e1 & -> & He1)%list_elem_of_fmap (e2 & Hu & He2)%list_elem_of_fmap.
      rewrite Forall_forall in Hn, Hr.
      apply Hn in He1. apply Hr in He2 as (name' & Hin & He2).
      assert (name = name') as <- by by eapply from_name_url.
      done.
  - intros data body segs name Hsegs Hname Hok. cbn [scanEntry].
    destruct (JsString.endsWith name ".md") eqn:Hmd.
    + destruct (Hok Hmd) as [stem Hstem]. split.
      * apply Forall_singleton. exists [], stem.
        rewrite app_nil_r. split; [by apply makeEntry_at|].
        destruct Hstem as (-> & Hne & _). split; [constructor|]. split; [done|].
        destruct Hname as (_ & _ & _ & Hsl & _). rewrite has_char_app in Hsl.
        apply orb_false_iff in Hsl as [Hsl _]. split; [done|]. by left.
      * apply NoDup_singleton.
    + split; constructor.
  - intros segs name _ _ _. split; constructor.
  - intros entries _ IH segs name Hsegs Hname _.
    rewrite scanEntry_Dir, path_join_plain by done.
    destruct (IH (segs ++ [name])) as [Hl Hd].
    { apply Forall_app. split; [done|by constructor]. }
    split; [|done].
    eapply Forall_impl; [exact Hl|].
    intros e (name' & _ & init & stem & Hat & Hinit & Hne & Hsl & _).
    exists (name :: init), stem. rewrite <- app_assoc in Hat.
    split; [done|]. split; [by constructor|]. split; [done|]. split; [done|].
    right. by exists init.
Qed.

Lemma scan_urls (env : Env) (es : list (string * fsnode)) :
  wf_listing es → NoDup (url <$> scanDir env "" es).
Proof.
  intros Hwf. by destruct (proj1 (scan_located env) es Hwf []) as [_ H].
Qed.

Lemma scan_from (env : Env) (es : list (string * fsnode)) (e : ContentEntry) :
  wf_listing es → e ∈ scanDir env "" es →
  ∃ name, name ∈ es.*1 ∧ from_name [] name e.
Proof.
  intros Hwf He. destruct (proj1 (scan_located env) es Hwf []) as [H _]; [done|].
  rewrite Forall_forall in H. by apply H.
Qed.

Lemma getAllContent_reads (env : Env) (st : Store) :
  reads_disk env st → (getAllContent env st).1 = (scanContentDirectory env st).1.
Proof.
  intros [Hdev|Hc]; unfold getAllContent.
  - by rewrite Hdev.
  - rewrite Hc. by destruct (isDev env).
Qed.

Lemma under_from_name (d name : string) (e : ContentEntry) :
  plain_name d → from_name [] name e → under d e = true → name = d.
Proof.
  intros (Hd & _ & _ & Hsl & _) (init & stem & (_ & _ & _ & Hdir & _) & Hinit & _ & _ & Hn).
  rewrite under_spec. unfold in_directory. rewrite Hdir. cbn [app].
  destruct Hn as [[-> ->]|[init' ->]].
  - intros [H|[rest H]]; [done|]. by destruct d.
  - intros H.
    assert (JsString.split "/" (JsString.join "/" (name :: init'))
            = name :: init') as Hsplit
      by (apply split_join; [by apply plain_no_slash|done]).
    destruct H as [H|[rest H]]; rewrite H in Hsplit.
    + rewrite split_plain in Hsplit by done. congruence.
    + change ("/" +:+ rest) with (String "/" rest) in Hsplit.
      rewrite split_first in Hsplit by done. congruence.
Qed.

Lemma under_below (d stem : string) (init : list string) (e : ContentEntry) :
  entry_at (d :: init) stem e → under d e = true.
Proof.
  intros (_ & _ & _ & Hdir & _). apply under_spec. unfold in_directory.
  rewrite Hdir. destruct init as [|i init]; [by left|].
  right. exists (JsString.join "/" (i :: init)). by rewrite join_cons.
Qed.

Lemma filter_none {A} (f : A → bool) (l : list A) :
  (∀ x, x ∈ l → f x = false) → List.filter f l = [].
Proof.
  induction l as [|a l IH]; [done|]. intros H. simpl.
  rewrite (H a) by by left. apply IH. intros x Hx. apply H. by right.
Qed.

Lemma filter_all {A} (f : A → bool) (l : list A) :
  (∀ x, x ∈ l → f x = true) → List.filter f l = l.
Proof.
  induction l as [|a l IH]; [done|]. intros H. simpl.
  rewrite (H a) by by left. f_equal. apply IH. intros x Hx. apply H. by right.
Qed.

Lemma filter_under_absent (env : Env) (d : string) (es : list (string * fsnode)) :
  wf_listing es → plain_name d → d ∉ es.*1 →
  List.filter (under d) (scanDir env "" es) = [].
Proof.
  intros Hwf Hd Hfresh. apply filter_none. intros e He.
  destruct (scan_from env es e Hwf He) as (name & Hin & Hfrom).
  destruct (under d e) eqn:Hu; [|done].
  apply (under_from_name d name e Hd Hfrom) in Hu. by subst.
Qed.

Lemma filter_under_folder (env : Env) (d : string)
    (es sub : list (string * fsnode)) :
  wf_listing es → (d, Dir sub) ∈ es →
  List.filter (under d) (scanDir env "" es) = scanDir env d sub
  ∧ ∀ e, e ∈ scanDir env d sub → mainDirectory e = d.
Proof.
  induction 1 as [|name n rest Hname Hfresh Hok Hn Hrest IH]; [by intros ?%elem_of_nil|].
  intros [[= <- <-]|Hin]%elem_of_cons.
  - rewrite scanDir_cons, List.filter_app, scanEntry_Dir.
    rewrite (filter_under_absent env d rest) by done. rewrite app_nil_r.
    pose proof (path_join_plain [] d (List.Forall_nil _) Hname) as Hj.
    cbn [app JsString.join] in Hj. rewrite Hj.
    inversion Hn as [| |? Hsub]; subst.
    destruct (proj1 (scan_located env) sub Hsub [d]) as [Hl _]; [by constructor|].
    rewrite Forall_forall in Hl. cbn [JsString.join] in Hl. split.
    + apply filter_all. intros e (_ & _ & init & stem & Hat & _)%Hl.
      by eapply under_below.
    + by intros e (_ & _ & init & stem & (_ & _ & _ & _ & -> & _) & _)%Hl.
  - assert (Hd : plain_name d ∧ name ≠ d).
    { split.
      - clear IH Hfresh. induction Hrest as [|name' n' rest' Hname']; [by apply elem_of_nil in Hin|].
        apply elem_of_cons in Hin as [[= <- <-]|Hin]; [done|by apply IHHrest].
      - intros ->. apply Hfresh. apply list_elem_of_fmap. by exists (d, Dir sub). }
    destruct Hd as [Hd Hne].
    rewrite scanDir_cons, List.filter_app.
    rewrite (filter_none (under d) (scanEntry env "" name n)); [by apply IH|].
    intros e He.
    destruct (proj2 (scan_located env) n Hn [] name) as [Hl _]; [done..|].
    rewrite Forall_forall in Hl. cbn [JsString.join] in Hl.
    destruct (under d e) eqn:Hu; [|done].
    by apply (under_from_name d name e Hd (Hl e He)) in Hu.
Qed.

Lemma from_name_no_slash (name : string) (e : ContentEntry) :
  from_name [] name e → trimSlash (url e) = url e.
Proof.
  intros (init & stem & (_ & _ & Hurl & _) & _ & Hne & Hsl & _).
  unfold trimSlash. cbn [app] in Hurl.
  assert (∃ a, url e = a +:+ stem) as [a Ha].
  { rewrite Hurl. destruct init as [|i init].
    - by exists "/".
    - rewrite join_snoc by done. exists ("/" +:+ JsString.join "/" (i :: init) +:+ "/").
      by rewrite !app_assoc_s. }
  by rewrite Ha, endsWith_slash_no.
Qed.

Lemma NoDup_fmap_eq {A B} (f : A → B) (l : list A) (x y : A) :
  NoDup (f <$> l) → x ∈ l → y ∈ l → f x = f y → x = y.
Proof.
  induction l as [|a l IH]; [by intros _ ?%elem_of_nil|].
  rewrite fmap_cons. intros [Ha Hl]%NoDup_cons.
  intros [->|Hx]%elem_of_cons [->|Hy]%elem_of_cons Hf.
  - done.
  - exfalso. apply Ha. rewrite Hf. apply list_elem_of_fmap. by exists y.
  - exfalso. apply Ha. rewrite <- Hf. apply list_elem_of_fmap. by exists x.
  - by apply IH.
Qed.

Lemma find_own_url (all : list ContentEntry) (e : ContentEntry) :
  NoDup (url <$> all) → (∀ e', e' ∈ all → trimSlash (url e') = url e') →
  e ∈ all →
  List.find (fun entry => JsString.eqb (trimSlash (url entry)) (url e)) all
  = Some e.
Proof.
  intros Hnd Htrim He.
  destruct (List.find _ all) as [e'|] eqn:Hfind.
  - apply find_first in Hfind as (before & after & Hall & Heq & _).
    assert (He' : e' ∈ all) by (rewrite Hall; apply elem_of_app; right; by left).
    apply eqb_spec in Heq. rewrite Htrim in Heq by done.
    f_equal. by apply (NoDup_fmap_eq url all).
  - rewrite find_nothing in Hfind. specialize (Hfind e He).
    rewrite Htrim in Hfind by done. by apply bool_decide_eq_false in Hfind.
Qed.

(** The sample tree is well formed. *)

Ltac plain_name_tac :=
  unfold plain_name; repeat match goal with |- _ ∧ _ => split end;
  first [discriminate | reflexivity].

Ltac md_name_tac stem :=
  exists stem; unfold md_name;
  repeat match goal with |- _ ∧ _ => split end;
  first [discriminate | reflexivity].

Ltac fresh_name_tac := apply (bool_decide_unpack _); vm_compute; exact I.

Lemma sample_tree_wf : wf_listing sample_tree.
Proof.
  unfold sample_tree, page.
  apply wf_cons; [plain_name_tac|fresh_name_tac| |constructor|].
  { intros _. md_name_tac "index". }
  apply wf_cons; [plain_name_tac|fresh_name_tac|exact I| |].
  { apply wf_dir.
    apply wf_cons; [plain_name_tac|fresh_name_tac| |constructor|].
    { intros _. md_name_tac "intro". }
    apply wf_cons; [plain_name_tac|fresh_name_tac|exact I| |].
    { apply wf_dir.
      apply wf_cons; [plain_name_tac|fresh_name_tac| |constructor|constructor].
      intros _. md_name_tac "setup". }
    apply wf_cons; [plain_name_tac|fresh_name_tac| |constructor|constructor].
    intros H. discriminate H. }
  apply wf_cons; [plain_name_tac|fresh_name_tac| |constructor|].
  { intros _. md_name_tac "docs". }
  apply wf_cons; [plain_name_tac|fresh_name_tac|exact I| |constructor].
  apply wf_dir.
  apply wf_cons; [plain_name_tac|fresh_name_tac| |constructor|constructor].
  intros _. md_name_tac "intro".
Qed.

(** X13. The entry of a markdown file. When the folders above a file and
    the file itself have plain names (not empty, not [.] or [..], without
    slash or backslash) and the file is named [stem.md] with [.md]
    occurring nowhere else in the name, the scanner's entry has slug
    [stem], path [dirs/stem.md], url [/dirs/stem], directory [dirs], as
    main directory the first folder ([root] at the top level) and as depth
    the number of folders. *)
Theorem makeEntry_fields (env : Env) (segs : list string) (name stem : string)
    (data : gmap string jsval) (markdownContent : string) :
  Forall plain_name segs → plain_name name → md_name name stem →
  let e := makeEntry env (JsString.join "/" segs) name data markdownContent in
  slug e = stem
  ∧ path e = JsString.join "/" (segs ++ [name])
  ∧ url e = "/" +:+ JsString.join "/" (segs ++ [stem])
  ∧ directory e = JsString.join "/" segs
  ∧ mainDirectory e = hd "root" segs
  ∧ depth e = length segs.
Proof.
  intros Hsegs Hname Hmd e.
  destruct (makeEntry_at env segs name stem data markdownContent Hsegs Hname Hmd)
    as (H1 & H2 & H3 & H4 & H5 & H6).
  destruct Hmd as (-> & _). by repeat split.
Qed.

Lemma makeEntry_fields_witness :
  let e := makeEntry demo_env "docs/guide" "setup.md" ∅ "" in
  slug e = "setup"
  ∧ path e = "docs/guide/setup.md"
  ∧ url e = "/docs/guide/setup"
  ∧ directory e = "docs/guide"
  ∧ mainDirectory e = "docs"
  ∧ depth e = 2%nat.
Proof.
  apply (makeEntry_fields demo_env ["docs"; "guide"] "setup.md" "setup" ∅ "").
  - repeat constructor; discriminate.
  - plain_name_tac.
  - unfold md_name. repeat match goal with |- _ ∧ _ => split end;
      first [discriminate | reflexivity].
Defined.

(** X14. In a well-formed content tree (plain names, no name twice in a
    folder, markdown files named [stem.md] with a non-empty stem and [.md]
    only as the extension) the scan gives no two entries the same url. *)
Theorem scan_urls_distinct (env : Env) (st : Store)
    (es : list (string * fsnode)) :
  disk st = Some es → wf_listing es →
  NoDup (url <$> (scanContentDirectory env st).1).
Proof.
  intros Hdisk Hwf. unfold scanContentDirectory. rewrite Hdisk. cbn [fst].
  by apply scan_urls.
Qed.

Lemma scan_urls_distinct_witness :
  NoDup (url <$> (scanContentDirectory demo_env (cold sample_tree)).1).
Proof.
  apply (scan_urls_distinct demo_env (cold sample_tree) sample_tree).
  - reflexivity.
  - exact sample_tree_wf.
Defined.

(** X15. For a folder [d] at the top of a well-formed content tree,
    [getContentByDirectory(d)] on a call that reads the disk returns
    exactly the entries the scan produces for that folder's subtree, in
    scan order: nothing from a sibling whose name merely starts with [d],
    and nothing from the top level. Each of them has main directory [d]. *)
Theorem getContentByDirectory_subtree (env : Env) (st : Store)
    (es sub : list (string * fsnode)) (d : string) :
  disk st = Some es → wf_listing es → reads_disk env st →
  (d, Dir sub) ∈ es → d ≠ "root" →
  (getContentByDirectory env d st).1 = scanDir env d sub
  ∧ ∀ e, e ∈ (getContentByDirectory env d st).1 → mainDirectory e = d.
Proof.
  intros Hdisk Hwf Hreads Hin Hroot.
  assert (Hres : (getContentByDirectory env d st).1 = scanDir env d sub).
  { unfold getContentByDirectory.
    pose proof (getAllContent_reads env st Hreads) as Hall.
    destruct (getAllContent env st) as [all st']. cbn [fst] in Hall.
    assert (JsString.eqb d "root" = false) as -> by by apply bool_decide_eq_false.
    cbn [fst]. rewrite Hall. unfold scanContentDirectory. rewrite Hdisk. cbn [fst].
    by apply filter_under_folder. }
  split; [done|]. rewrite Hres.
  by apply (filter_under_folder env d es sub).
Qed.

Lemma getContentByDirectory_subtree_witness :
  (getContentByDirectory demo_env "docs" (cold sample_tree)).1
  = scanDir demo_env "docs"
      [("intro.md", page []); ("guide", Dir [("setup.md", page [])]);
       ("notes.txt", page [])]
  ∧ url <$> (getContentByDirectory demo_env "docs" (cold sample_tree)).1
    = ["/docs/intro"; "/docs/guide/setup"].
Proof.
  split.
  - apply (getContentByDirectory_subtree demo_env (cold sample_tree) sample_tree).
    + reflexivity.
    + exact sample_tree_wf.
    + by right.
    + right. left.
    + discriminate.
  - vm_compute. reflexivity.
Defined.

(** X16. In a well-formed content tree every entry is found again by its
    own url: on a call that reads the disk, [getContentByUrl] at the url
    of a scanned entry, with or without a trailing slash, returns that
    entry and no other. *)
Theorem getContentByUrl_own_url (env : Env) (st : Store)
    (es : list (string * fsnode)) (e : ContentEntry) :
  disk st = Some es → wf_listing es → reads_disk env st →
  e ∈ (scanContentDirectory env st).1 →
  (getContentByUrl env (url e) st).1 = Some e
  ∧ (getContentByUrl env (url e +:+ "/") st).1 = Some e.
Proof.
  intros Hdisk Hwf Hreads He.
  pose proof (getAllContent_reads env st Hreads) as Hall.
  unfold getContentByUrl. destruct (getAllContent env st) as [all st'].
  cbn [fst] in *. subst all. rewrite trimSlash_app.
  unfold scanContentDirectory in *. rewrite Hdisk in *. cbn [fst] in *.
  assert (Htrim : ∀ e', e' ∈ scanDir env "" es → trimSlash (url e') = url e').
  { intros e' (name & _ & Hfrom)%(scan_from env es e' Hwf).
    by eapply from_name_no_slash. }
  rewrite (Htrim e He).
  split; apply find_own_url; try done; by apply scan_urls.
Qed.

Lemma getContentByUrl_own_url_witness :
  let e := makeEntry demo_env "docs" "intro.md" ∅ "" in
  (getContentByUrl demo_env "/docs/intro" (cold sample_tree)).1 = Some e
  ∧ (getContentByUrl demo_env "/docs/intro/" (cold sample_tree)).1 = Some e.
Proof.
  apply (getContentByUrl_own_url demo_env (cold sample_tree) sample_tree
           (makeEntry demo_env "docs" "intro.md" ∅ "")).
  - reflexivity.
  - exact sample_tree_wf.
  - by right.
  - vm_compute. repeat constructor.
Defined.
